(** * Adaptive Resource Allocation Simulator: the scheduler and the registry

    A shallow embedding of [project.py].  The program keeps a dictionary
    of [Process] objects and, on a fixed cadence, runs one scheduling tick
    over a snapshot of them: an admission pass bounded by memory, a CPU-grant
    pass bounded by 100 %, a progress update and the rows sent to the table.

    Modelling choices.
    - Python floats are exact rationals ([Q]): the requests come from integer
      sliders, so every sum and comparison the two allocation passes make is
      exact in the source as well.  Progress is the one quantity the source
      rounds (binary floats); the model adds the exact step, so its progress
      values are those of the source up to rounding.
    - The objects of one snapshot form a store [list Process]; a reference
      to an object is its position in the snapshot.  [ready_queue] and
      [running_procs] hold references, as in the source, and every assignment
      [p.state = ...] or [p.progress = ...] is an update of the store.
    - A Python [str] is the sequence of its code points ([pystr]); the text
      of the name entry is any such sequence.
    - Tk widgets are left out: the values read from them are arguments. *)

From Stdlib Require Import ZArith QArith Qminmax Lqa Lia String Ascii List Sorted.
From stdpp Require Import base list.
Import ListNotations.

Local Open Scope Q_scope.

(** ** Data model *)

Inductive State : Type := Ready | Waiting | Running | Completed.

Definition State_eqb (a b : State) : bool :=
  match a, b with
  | Ready, Ready | Waiting, Waiting | Running, Running
  | Completed, Completed => true
  | _, _ => false
  end.

(** A Python [str]: the sequence of its code points. *)
Definition pystr : Type := list N.

(** A literal: the characters of a Rocq string, each the code point of its
    own number. *)
Definition code_points (s : string) : pystr :=
  map N_of_ascii (list_ascii_of_string s).

Coercion code_points : string >-> pystr.
Bind Scope string_scope with pystr.

(** [class Process]; the [progressbar] attribute is a widget and is left out. *)
Record Process : Type := mkProcess {
  pid : Z;
  name : pystr;
  cpu_request : Q;
  mem_request : Q;
  progress : Q;
  state : State
}.

(** [Process.__init__] *)
Definition Process_init (pid : Z) (name : pystr) (cpu_request mem_request : Q)
  : Process :=
  mkProcess pid name cpu_request mem_request 0 Ready.

(** [p.state = s] *)
Definition set_state (p : Process) (s : State) : Process :=
  mkProcess (pid p) (name p) (cpu_request p) (mem_request p) (progress p) s.

(** [p.progress = x] *)
Definition set_progress (p : Process) (x : Q) : Process :=
  mkProcess (pid p) (name p) (cpu_request p) (mem_request p) x (state p).

(** [a > b] on floats *)
Definition Qgt_bool (a b : Q) : bool := negb (Qle_bool a b).

(** [self.total_memory_mb = 2048] *)
Definition total_memory_mb : Q := 2048.

(** ** The scheduling tick ([scheduler_loop], one iteration) *)

Module Scheduler.

(** First loop: states from memory.  Returns the store, [mem_used] and
    [ready_queue]. *)
Fixpoint admit_loop (procs : list nat) (heap : list Process) (mem_used : Q)
    (ready_queue : list nat) : list Process * Q * list nat :=
  match procs with
  | [] => (heap, mem_used, ready_queue)
  | r :: procs' =>
    match heap !! r with
    | None => admit_loop procs' heap mem_used ready_queue
    | Some p =>
      if State_eqb (state p) Completed then
        admit_loop procs' heap mem_used ready_queue
      else if Qgt_bool (mem_used + mem_request p) total_memory_mb then
        admit_loop procs' (<[r := set_state p Waiting]> heap) mem_used
                   ready_queue
      else
        admit_loop procs' (<[r := set_state p Ready]> heap)
                   (mem_used + mem_request p) (ready_queue ++ [r])
    end
  end.

(** Second loop: CPU for the ready queue.  Returns the store,
    [cpu_allocated] and [running_procs]. *)
Fixpoint grant_loop (ready_queue : list nat) (heap : list Process)
    (cpu_allocated : Q) (running_procs : list (nat * Q))
  : list Process * Q * list (nat * Q) :=
  match ready_queue with
  | [] => (heap, cpu_allocated, running_procs)
  | r :: ready_queue' =>
    match heap !! r with
    | None => grant_loop ready_queue' heap cpu_allocated running_procs
    | Some p =>
      if Qle_bool (cpu_allocated + cpu_request p) 100 then
        grant_loop ready_queue' (<[r := set_state p Running]> heap)
                   (cpu_allocated + cpu_request p)
                   (running_procs ++ [(r, cpu_request p)])
      else
        grant_loop ready_queue' (<[r := set_state p Ready]> heap)
                   cpu_allocated running_procs
    end
  end.

(** [scale = 0.05*1.5], here the exact 3/40; the source computes the
    product in binary floats. *)
Definition scale : Q := 0.05 * 1.5.

(** Body of the third loop for one object. *)
Definition advance (p : Process) (cpu_alloc : Q) : Process :=
  let p1 := set_progress p (Qmin 100 (progress p + cpu_alloc * scale)) in
  if Qle_bool 100 (progress p1) then set_state p1 Completed else p1.

(** Third loop: progress of the running processes. *)
Fixpoint progress_loop (running_procs : list (nat * Q)) (heap : list Process)
  : list Process :=
  match running_procs with
  | [] => heap
  | (r, cpu_alloc) :: running_procs' =>
    match heap !! r with
    | None => progress_loop running_procs' heap
    | Some p => progress_loop running_procs' (<[r := advance p cpu_alloc]> heap)
    end
  end.

(** [next((cpu for proc,cpu in running_procs if proc==p), 0.0)]; [==] on
    [Process] objects is identity, here equality of references. *)
Fixpoint alloc_of (r : nat) (running_procs : list (nat * Q)) : Q :=
  match running_procs with
  | [] => 0
  | (r', cpu) :: running_procs' =>
    if Nat.eqb r' r then cpu else alloc_of r running_procs'
  end.

(** [p.mem_request if p.state in ["Ready","Running"] else 0.0] *)
Definition mem_display (p : Process) : Q :=
  match state p with
  | Ready | Running => mem_request p
  | _ => 0
  end.

(** One call [update_process_row(p, alloc_cpu, mem_display)]. *)
Record Row : Type := mkRow {
  row_proc : Process;
  row_alloc_cpu : Q;
  row_mem_used : Q
}.

(** Fourth loop: the table rows. *)
Fixpoint rows_loop (procs : list nat) (heap : list Process)
    (running_procs : list (nat * Q)) : list Row :=
  match procs with
  | [] => []
  | r :: procs' =>
    match heap !! r with
    | None => rows_loop procs' heap running_procs
    | Some p =>
      mkRow p (alloc_of r running_procs) (mem_display p)
      :: rows_loop procs' heap running_procs
    end
  end.

(** The two allocation passes of one tick. *)
Definition allocate (heap : list Process)
  : list Process * list (nat * Q) :=
  let procs := seq 0 (length heap) in
  let '(heap1, _, ready_queue) := admit_loop procs heap 0 [] in
  let '(heap2, _, running_procs) := grant_loop ready_queue heap1 0 [] in
  (heap2, running_procs).

(** One iteration of [scheduler_loop] on the snapshot [heap]: the objects
    after the tick and the rows handed to the table. *)
Definition tick (heap : list Process) : list Process * list Row :=
  let procs := seq 0 (length heap) in
  let '(heap2, running_procs) := allocate heap in
  let heap3 := progress_loop running_procs heap2 in
  (heap3, rows_loop procs heap3 running_procs).

(** What the allocation passes leave for each object of the snapshot, in
    snapshot order: the object and the CPU recorded for it in
    [running_procs]. *)
Definition allocation (heap : list Process) : list (Process * Q) :=
  let '(heap2, running_procs) := allocate heap in
  imap (fun r p => (p, alloc_of r running_procs)) heap2.

(** The snapshot after [n] ticks in a row. *)
Fixpoint ticks (n : nat) (heap : list Process) : list Process :=
  match n with
  | O => heap
  | S n' => fst (tick (ticks n' heap))
  end.

End Scheduler.

(** ** The process registry and its events ([ResourceSchedulerGUI]) *)

Module GUI.

(** [sum(...)] of Python: a left fold from 0. *)
Definition py_sum (xs : list Q) : Q := fold_left Qplus xs 0.

Definition is_Running (p : Process) : bool := State_eqb (state p) Running.

Definition occupies_memory (p : Process) : bool :=
  match state p with
  | Ready | Running => true
  | _ => false
  end.

(** [sum(p.cpu_request for p in ... if p.state=="Running")] *)
Definition total_cpu (values : list Process) : Q :=
  py_sum (map cpu_request (List.filter is_Running values)).

(** [sum(p.mem_request for p in ... if p.state in ["Ready","Running"])] *)
Definition total_mem (values : list Process) : Q :=
  py_sum (map mem_request (List.filter occupies_memory values)).

(** The attributes of the object that the events read and write:
    [self.processes] (an insertion-ordered dict), [self.next_pid] and
    [self.next_proc_index]. *)
Record t : Type := mk {
  processes : list (Z * Process);
  next_pid : Z;
  next_proc_index : Z
}.

(** [__init__] *)
Definition init : t := mk [] 1001 1.

(** [d[k] = v]: an existing key keeps its place, a new one goes last. *)
Fixpoint dict_set (k : Z) (v : Process) (d : list (Z * Process))
  : list (Z * Process) :=
  match d with
  | [] => [(k, v)]
  | (k', v') :: d' =>
    if Z.eqb k' k then (k, v) :: d' else (k', v') :: dict_set k v d'
  end.

(** [d.pop(k, None)], the dictionary that is left. *)
Fixpoint dict_pop (k : Z) (d : list (Z * Process)) : list (Z * Process) :=
  match d with
  | [] => []
  | (k', v') :: d' => if Z.eqb k' k then d' else (k', v') :: dict_pop k d'
  end.

(** [d.get(k)] *)
Fixpoint dict_get (k : Z) (d : list (Z * Process)) : option Process :=
  match d with
  | [] => None
  | (k', v') :: d' => if Z.eqb k' k then Some v' else dict_get k d'
  end.

(** [list(d.values())] and [list(d.keys())] *)
Definition values (d : list (Z * Process)) : list Process := map snd d.
Definition keys (d : list (Z * Process)) : list Z := map fst d.

(** [c.isspace()], as [str.strip()] tests it: the white space of Python 3
    is U+0009-000D, U+001C-0020, U+0085, U+00A0, U+1680, U+2000-200A,
    U+2028, U+2029, U+202F, U+205F and U+3000. *)
Definition is_space (c : N) : bool :=
  ((9 <=? c) && (c <=? 13) || (28 <=? c) && (c <=? 32)
   || (c =? 133) || (c =? 160) || (c =? 5760)
   || (8192 <=? c) && (c <=? 8202)
   || (c =? 8232) || (c =? 8233) || (c =? 8239) || (c =? 8287)
   || (c =? 12288))%N.

Fixpoint lstrip (s : pystr) : pystr :=
  match s with
  | [] => []
  | c :: s' => if is_space c then lstrip s' else s
  end.

Fixpoint rstrip (s : pystr) : pystr :=
  match s with
  | [] => []
  | c :: s' =>
    match rstrip s' with
    | [] => if is_space c then [] else [c]
    | t => c :: t
    end
  end.

(** [s.strip()] *)
Definition strip (s : pystr) : pystr := lstrip (rstrip s).

(** [not name] *)
Definition is_empty (s : pystr) : bool :=
  match s with
  | [] => true
  | _ => false
  end.

(** [add_process]: the entry text and the two slider positions are the
    arguments; the result is the new object state and the local [pid]
    ([None] when the name is refused). *)
Definition add_process (name_var : pystr) (cpu_slider mem_slider : Z)
    (g : t) : t * option Z :=
  let name := strip name_var in
  if is_empty name then (g, None)
  else
    let cpu_req := inject_Z cpu_slider in
    let mem_req := inject_Z mem_slider in
    let pid := next_pid g in
    let proc := Process_init pid name cpu_req mem_req in
    (mk (dict_set pid proc (processes g)) (pid + 1)%Z
        (next_proc_index g + 1)%Z,
     Some pid).

(** [delete_selected_process]: [selected] is the selection of the table,
    each row given by the pid it shows. *)
Definition delete_selected_process (selected : list Z) (g : t) : t :=
  match selected with
  | [] => g
  | pid :: _ =>
    mk (dict_pop pid (processes g)) (next_pid g) (next_proc_index g)
  end.

(** [reset_all]: [askyesno] is the answer to the confirmation dialog. *)
Definition reset_all (askyesno : bool) (g : t) : t :=
  if negb askyesno then g else mk [] 1001 1.

(** One iteration of [scheduler_loop]: the snapshot is the list of the
    dictionary's objects, which the tick updates in place. *)
Definition scheduler_loop (g : t) : t * list Scheduler.Row :=
  let procs := values (processes g) in
  let '(procs', rows) := Scheduler.tick procs in
  (mk (combine (keys (processes g)) procs') (next_pid g) (next_proc_index g),
   rows).

(** [update_system_usage]: the values of the two bars. *)
Definition update_system_usage (g : t) : Q * Q :=
  let total_cpu := total_cpu (values (processes g)) in
  let total_mem := total_mem (values (processes g)) in
  let mem_percent := Qmin 100 ((total_mem / total_memory_mb) * 100) in
  (Qmin 100 total_cpu, mem_percent).

(** What happens to the object, one event at a time. *)
Inductive Event : Type :=
| Add (name_var : pystr) (cpu_slider mem_slider : Z)
| Delete (selected : list Z)
| Reset (askyesno : bool)
| Tick.

Definition step (e : Event) (g : t) : t :=
  match e with
  | Add name_var cpu_slider mem_slider =>
    fst (add_process name_var cpu_slider mem_slider g)
  | Delete selected => delete_selected_process selected g
  | Reset askyesno => reset_all askyesno g
  | Tick => fst (scheduler_loop g)
  end.

(** The pid an event hands out, if any. *)
Definition assigned (e : Event) (g : t) : option Z :=
  match e with
  | Add name_var cpu_slider mem_slider =>
    snd (add_process name_var cpu_slider mem_slider g)
  | _ => None
  end.

(** A sequence of events from [g]: the final state and the pids handed
    out, in order. *)
Fixpoint run (es : list Event) (g : t) : t * list Z :=
  match es with
  | [] => (g, [])
  | e :: es' =>
    let '(g', ids) := run es' (step e g) in
    (g', match assigned e g with Some i => i :: ids | None => ids end)
  end.

(** The sliders: [Scale(from_=1, to=100)] and [Scale(from_=0, to=2048)]. *)
Definition sliders_ok (e : Event) : Prop :=
  match e with
  | Add _ cpu_slider mem_slider =>
    (1 <= cpu_slider <= 100)%Z /\ (0 <= mem_slider <= 2048)%Z
  | _ => True
  end.

(** A confirmed reset starts a new run. *)
Definition is_reset (e : Event) : bool :=
  match e with
  | Reset true => true
  | _ => false
  end.

(** A sequence of events within one run. *)
Definition one_run (es : list Event) : Prop :=
  forallb (fun e => negb (is_reset e)) es = true.

(** Sum of [mem_request] over the processes whose state is Ready. *)
Definition ready_mem (values : list Process) : Q :=
  py_sum (map mem_request
              (List.filter (fun p => State_eqb (state p) Ready) values)).

End GUI.

(** ** The allocation policy in the words of the specification (§4.2) *)

Module Spec.

(** Admission pass: a running memory total over the snapshot in order;
    already-Completed processes are skipped entirely. *)
Fixpoint admission_pass (running_total : Q) (l : list Process)
  : list Process :=
  match l with
  | [] => []
  | p :: l' =>
    match state p with
    | Completed => p :: admission_pass running_total l'
    | _ =>
      if Qle_bool (running_total + mem_request p) 2048 then
        set_state p Ready :: admission_pass (running_total + mem_request p) l'
      else
        set_state p Waiting :: admission_pass running_total l'
    end
  end.

(** CPU-grant pass over the admitted (Ready) processes in the same order;
    each process is paired with its [allocated_cpu]. *)
Fixpoint cpu_grant_pass (running_total_cpu : Q) (l : list Process)
  : list (Process * Q) :=
  match l with
  | [] => []
  | p :: l' =>
    match state p with
    | Ready =>
      if Qle_bool (running_total_cpu + cpu_request p) 100 then
        (set_state p Running, cpu_request p)
        :: cpu_grant_pass (running_total_cpu + cpu_request p) l'
      else
        (set_state p Ready, 0) :: cpu_grant_pass running_total_cpu l'
    | _ => (p, 0) :: cpu_grant_pass running_total_cpu l'
    end
  end.

End Spec.

(** ** Auxiliary definitions for the proofs *)

(** References (from [base] on) of the Ready objects of [l]. *)
Fixpoint ready_refs (base : nat) (l : list Process) : list nat :=
  match l with
  | [] => []
  | p :: l' =>
    if State_eqb (state p) Ready then base :: ready_refs (S base) l'
    else ready_refs (S base) l'
  end.

(** References of the Running objects of [l] with their request. *)
Fixpoint running_refs (base : nat) (l : list Process) : list (nat * Q) :=
  match l with
  | [] => []
  | p :: l' =>
    if State_eqb (state p) Running
    then (base, cpu_request p) :: running_refs (S base) l'
    else running_refs (S base) l'
  end.

(** What the third loop does to one object of the snapshot. *)
Definition progress_step (p : Process) : Process :=
  if State_eqb (state p) Running then Scheduler.advance p (cpu_request p) else p.

(** CPU reported for an object, read off its state after the grant pass. *)
Definition granted (p : Process) : Q :=
  if State_eqb (state p) Running then cpu_request p else 0.

(** The states after the two allocation passes, in the words of the
    specification. *)
Definition granted_states (heap : list Process) : list Process :=
  map fst (Spec.cpu_grant_pass 0 (Spec.admission_pass 0 heap)).

(** One row of the table, from the state of the object after the grant
    pass. *)
Definition row_of (q : Process) : Scheduler.Row :=
  Scheduler.mkRow (progress_step q) (granted q)
                  (Scheduler.mem_display (progress_step q)).

(** Sum of the allocated CPU over the rows whose process is Running. *)
Definition allocated_running (rows : list Scheduler.Row) : Q :=
  GUI.py_sum
    (map Scheduler.row_alloc_cpu
         (List.filter (fun r => GUI.is_Running (Scheduler.row_proc r)) rows)).

(** The ranges of the data model that the invariants rely on: requests are
    not negative and progress is at most 100. *)
Definition valid (p : Process) : Prop :=
  0 <= cpu_request p /\ 0 <= mem_request p /\ progress p <= 100.

(** Two objects that agree on what the scheduler reads: state, requests
    and progress. *)
Definition same_sched (p q : Process) : Prop :=
  state p = state q /\ cpu_request p = cpu_request q
  /\ mem_request p = mem_request q /\ progress p = progress q.

(** Two rows that agree on state, progress, allocated CPU and memory used. *)
Definition same_row (r1 r2 : Scheduler.Row) : Prop :=
  same_sched (Scheduler.row_proc r1) (Scheduler.row_proc r2)
  /\ Scheduler.row_alloc_cpu r1 = Scheduler.row_alloc_cpu r2
  /\ Scheduler.row_mem_used r1 = Scheduler.row_mem_used r2.

(** An object after the allocation passes is the same object with,
    possibly, another state; Completed is neither entered nor left. *)
Definition restated (p q : Process) : Prop :=
  q = set_state p (state q) /\ (state p = Completed <-> state q = Completed).

(** ** The rest of the program *)

(** [_adjust_pb_canvas_height]: the height given to the canvas of the
    progress bars, from the number of processes. *)
Definition adjust_pb_canvas_height (g : GUI.t) : Z :=
  let count := Z.of_nat (length (GUI.processes g)) in
  let height := Z.max 30 (count * 28) in
  Z.min (Z.max 160 height) 600.

(** ** Definitions for the invariants of the program *)

(** The states the program reaches from its initial one, with the sliders
    inside their scales. *)
Definition reachable (g : GUI.t) : Prop :=
  exists es, Forall GUI.sliders_ok es /\ g = fst (GUI.run es GUI.init).

(** Every character is white space. *)
Fixpoint all_space (s : pystr) : bool :=
  match s with
  | [] => true
  | c :: s' => GUI.is_space c && all_space s'
  end.

(** The dictionary is ordered by key, every key is the pid of its process
    and lies between 1001 and the next pid, which is at least 1001, and the
    two counters move together. *)
Definition registry_ok (g : GUI.t) : Prop :=
  StronglySorted Z.lt (GUI.keys (GUI.processes g))
  /\ Forall (fun kp => fst kp = pid (snd kp)
                       /\ (1001 <= fst kp < GUI.next_pid g)%Z)
            (GUI.processes g)
  /\ (1001 <= GUI.next_pid g)%Z
  /\ GUI.next_pid g = (1000 + GUI.next_proc_index g)%Z.

(** Two objects with the same pid, name and requests. *)
Definition same_static (p q : Process) : Prop :=
  pid q = pid p /\ name q = name p /\ cpu_request q = cpu_request p
  /\ mem_request q = mem_request p.

(** The requests are whole numbers inside the scales of the sliders. *)
Definition slider_requests (p : Process) : Prop :=
  exists c m : Z,
    (1 <= c <= 100)%Z /\ (0 <= m <= 2048)%Z
    /\ cpu_request p = inject_Z c /\ mem_request p = inject_Z m.

(** Progress is between 0 and 100, and it is 100 exactly for the Completed
    processes. *)
Definition progress_ok (p : Process) : Prop :=
  0 <= progress p /\ progress p <= 100
  /\ (state p = Completed <-> 100 <= progress p).

(** ** Definitions for the further properties of the tick *)

(** The running memory total that the admission pass reaches at the end of
    [l], started from [m]. *)
Fixpoint mem_after (m : Q) (l : list Process) : Q :=
  match l with
  | [] => m
  | p :: l' =>
    match state p with
    | Completed => mem_after m l'
    | _ =>
      if Qle_bool (m + mem_request p) 2048
      then mem_after (m + mem_request p) l'
      else mem_after m l'
    end
  end.

(** The running CPU total that the grant pass reaches at the end of [l],
    started from [c]. *)
Fixpoint cpu_after (c : Q) (l : list Process) : Q :=
  match l with
  | [] => c
  | p :: l' =>
    match state p with
    | Ready =>
      if Qle_bool (c + cpu_request p) 100
      then cpu_after (c + cpu_request p) l'
      else cpu_after c l'
    | _ => cpu_after c l'
    end
  end.

Definition not_Completed (p : Process) : bool :=
  negb (State_eqb (state p) Completed).

(** What the processes that are not Completed ask for, in memory and in
    CPU. *)
Definition demand_mem (l : list Process) : Q :=
  GUI.py_sum (map mem_request (List.filter not_Completed l)).

Definition demand_cpu (l : list Process) : Q :=
  GUI.py_sum (map cpu_request (List.filter not_Completed l)).

(** The ranges of the data model: requests inside the scales of the
    sliders and progress as in [progress_ok]. *)
Definition healthy (p : Process) : Prop :=
  1 <= cpu_request p /\ cpu_request p <= 100
  /\ 0 <= mem_request p /\ mem_request p <= 2048
  /\ progress_ok p.

(** A process that is not Completed put in state [s]. *)
Definition unfinished_to (s : State) (p : Process) : Process :=
  if not_Completed p then set_state p s else p.

(** ** Loop invariants of the tick *)

Section LoopInvariants.

Import Scheduler.

Lemma State_eqb_eq (a b : State) : State_eqb a b = true <-> a = b.
Proof. destruct a, b; simpl; split; intros H; congruence. Qed.

Lemma State_eqb_neq (a b : State) : State_eqb a b = false <-> a <> b.
Proof. destruct a, b; simpl; split; intros H; congruence. Qed.

Lemma set_state_same (p : Process) : set_state p (state p) = p.
Proof. destruct p; reflexivity. Qed.

Lemma app_cons_snoc {A} (done : list A) (x : A) (todo : list A) :
  done ++ x :: todo = (done ++ [x]) ++ todo.
Proof. rewrite <- app_assoc. reflexivity. Qed.

Lemma length_snoc {A} (done : list A) (x : A) :
  length (done ++ [x]) = S (length done).
Proof. rewrite length_app. simpl. lia. Qed.

Lemma insert_middle {A} (done : list A) (x y : A) (todo : list A) :
  <[length done := y]> (done ++ x :: todo) = (done ++ [y]) ++ todo.
Proof.
  replace (length done) with (length done + 0)%nat by lia.
  rewrite insert_app_r. simpl. apply app_cons_snoc.
Qed.

Lemma admit_loop_app (todo done : list Process) (mem_used : Q)
    (ready_queue : list nat) :
  exists mem_used',
    admit_loop (seq (length done) (length todo)) (done ++ todo) mem_used
               ready_queue
    = (done ++ Spec.admission_pass mem_used todo, mem_used',
       ready_queue ++ ready_refs (length done)
                                 (Spec.admission_pass mem_used todo)).
Proof.
  revert done mem_used ready_queue.
  induction todo as [|p todo IH]; intros done mem_used ready_queue.
  - exists mem_used. simpl. rewrite !app_nil_r. reflexivity.
  - cbn [length seq admit_loop Spec.admission_pass].
    rewrite (list_lookup_middle done todo p (length done) eq_refl).
    destruct (State_eqb (state p) Completed) eqn:Hc.
    + apply State_eqb_eq in Hc. rewrite Hc.
      rewrite app_cons_snoc, <- (length_snoc done p).
      destruct (IH (done ++ [p]) mem_used ready_queue) as [m' ->].
      exists m'. rewrite <- !app_assoc. cbn [app ready_refs].
      rewrite Hc. cbn [State_eqb]. rewrite length_snoc. reflexivity.
    + apply State_eqb_neq in Hc.
      assert (Hspec : Spec.admission_pass mem_used (p :: todo) =
        if Qle_bool (mem_used + mem_request p) 2048 then
          set_state p Ready
          :: Spec.admission_pass (mem_used + mem_request p) todo
        else set_state p Waiting :: Spec.admission_pass mem_used todo).
      { simpl. destruct (state p); congruence. }
      cbn [Spec.admission_pass] in Hspec. rewrite Hspec. clear Hspec.
      unfold Qgt_bool, total_memory_mb.
      destruct (Qle_bool (mem_used + mem_request p) 2048); cbn [negb];
        rewrite insert_middle.
      * rewrite <- (length_snoc done (set_state p Ready)).
        destruct (IH (done ++ [set_state p Ready]) (mem_used + mem_request p)
                     (ready_queue ++ [length done])) as [m' ->].
        exists m'. rewrite <- !app_assoc.
        cbn [app ready_refs set_state state State_eqb].
        rewrite length_snoc. reflexivity.
      * rewrite <- (length_snoc done (set_state p Waiting)).
        destruct (IH (done ++ [set_state p Waiting]) mem_used ready_queue)
          as [m' ->].
        exists m'. rewrite <- !app_assoc.
        cbn [app ready_refs set_state state State_eqb].
        rewrite length_snoc. reflexivity.
Qed.

Lemma grant_loop_app (todo done : list Process) (cpu_allocated : Q)
    (running_procs : list (nat * Q)) :
  Forall (fun p => state p <> Running) todo ->
  exists cpu_allocated',
    grant_loop (ready_refs (length done) todo) (done ++ todo) cpu_allocated
               running_procs
    = (done ++ map fst (Spec.cpu_grant_pass cpu_allocated todo),
       cpu_allocated',
       running_procs
       ++ running_refs (length done)
                       (map fst (Spec.cpu_grant_pass cpu_allocated todo))).
Proof.
  revert done cpu_allocated running_procs.
  induction todo as [|p todo IH]; intros done cpu running_procs Hnr.
  - exists cpu. simpl. rewrite !app_nil_r. reflexivity.
  - inversion Hnr as [|? ? Hp Hnr']; subst.
    cbn [ready_refs Spec.cpu_grant_pass].
    destruct (State_eqb (state p) Ready) eqn:Hr.
    + apply State_eqb_eq in Hr. rewrite Hr.
      cbn [grant_loop].
      rewrite (list_lookup_middle done todo p (length done) eq_refl).
      destruct (Qle_bool (cpu + cpu_request p) 100); rewrite insert_middle.
      * rewrite <- (length_snoc done (set_state p Running)).
        destruct (IH (done ++ [set_state p Running]) (cpu + cpu_request p)
                     (running_procs ++ [(length done, cpu_request p)]) Hnr')
          as [c' ->].
        exists c'. rewrite <- !app_assoc.
        cbn [app map fst running_refs set_state state State_eqb cpu_request].
        rewrite length_snoc. reflexivity.
      * rewrite <- (length_snoc done (set_state p Ready)).
        destruct (IH (done ++ [set_state p Ready]) cpu running_procs Hnr')
          as [c' ->].
        exists c'. rewrite <- !app_assoc.
        cbn [app map fst running_refs set_state state State_eqb].
        rewrite length_snoc. reflexivity.
    + assert (Hspec : forall (X : Type) (a b : X),
                match state p with Ready => a | _ => b end = b).
      { intros X a b. destruct (state p); simpl in Hr; congruence. }
      rewrite Hspec. clear Hspec.
      rewrite app_cons_snoc, <- (length_snoc done p).
      destruct (IH (done ++ [p]) cpu running_procs Hnr') as [c' ->].
      exists c'. rewrite <- !app_assoc. cbn [app map fst running_refs].
      apply State_eqb_neq in Hp. rewrite Hp, length_snoc. reflexivity.
Qed.

Lemma progress_loop_app (todo done : list Process) :
  progress_loop (running_refs (length done) todo) (done ++ todo)
  = done ++ map progress_step todo.
Proof.
  revert done. induction todo as [|p todo IH]; intros done.
  - reflexivity.
  - cbn [running_refs map]. unfold progress_step at 1.
    destruct (State_eqb (state p) Running).
    + cbn [progress_loop].
      rewrite (list_lookup_middle done todo p (length done) eq_refl).
      rewrite insert_middle.
      rewrite <- (length_snoc done (advance p (cpu_request p))), IH.
      rewrite <- app_assoc. reflexivity.
    + rewrite app_cons_snoc, <- (length_snoc done p), IH.
      rewrite <- app_assoc. reflexivity.
Qed.

Lemma alloc_of_below (r base : nat) (l : list Process) :
  (r < base)%nat -> alloc_of r (running_refs base l) = 0.
Proof.
  revert base. induction l as [|p l IH]; intros base Hlt; [reflexivity|].
  cbn [running_refs]. destruct (State_eqb (state p) Running).
  - cbn [alloc_of]. destruct (Nat.eqb_spec base r); [lia|].
    apply IH. lia.
  - apply IH. lia.
Qed.

Lemma alloc_of_running_refs (i base : nat) (l : list Process) :
  alloc_of (base + i) (running_refs base l)
  = match l !! i with Some p => granted p | None => 0 end.
Proof.
  revert i base. induction l as [|p l IH]; intros i base.
  - reflexivity.
  - cbn [running_refs]. destruct i as [|i].
    + cbn [lookup list_lookup]. unfold granted.
      destruct (State_eqb (state p) Running).
      * cbn [alloc_of]. replace (base + 0)%nat with base by lia.
        rewrite Nat.eqb_refl. reflexivity.
      * apply alloc_of_below. lia.
    + replace (base + S i)%nat with (S base + i)%nat by lia.
      cbn [lookup list_lookup].
      destruct (State_eqb (state p) Running).
      * cbn [alloc_of]. destruct (Nat.eqb_spec base (S base + i)); [lia|].
        apply IH.
      * apply IH.
Qed.

Lemma rows_loop_app (todo done : list Process)
    (running_procs : list (nat * Q)) :
  rows_loop (seq (length done) (length todo)) (done ++ todo) running_procs
  = imap (fun i p => mkRow p (alloc_of (length done + i) running_procs)
                               (mem_display p)) todo.
Proof.
  revert done. induction todo as [|p todo IH]; intros done.
  - reflexivity.
  - cbn [length seq rows_loop imap].
    rewrite (list_lookup_middle done todo p (length done) eq_refl).
    replace (length done + 0)%nat with (length done) by lia.
    f_equal.
    rewrite app_cons_snoc, <- (length_snoc done p), IH.
    apply imap_ext. intros i x _. simpl. rewrite length_snoc.
    replace (S (length done) + i)%nat with (length done + S i)%nat by lia.
    reflexivity.
Qed.

Lemma admission_pass_not_running (m : Q) (l : list Process) :
  Forall (fun p => state p <> Running) (Spec.admission_pass m l).
Proof.
  revert m. induction l as [|p l IH]; intros m; simpl; [constructor|].
  destruct (state p) eqn:Hst;
    try (destruct (Qle_bool (m + mem_request p) 2048));
    constructor; simpl; try congruence; apply IH.
Qed.

Lemma cpu_grant_pass_granted (c : Q) (l : list Process) :
  Forall (fun p => state p <> Running) l ->
  map snd (Spec.cpu_grant_pass c l)
  = map granted (map fst (Spec.cpu_grant_pass c l)).
Proof.
  revert c. induction l as [|p l IH]; intros c Hnr; [reflexivity|].
  inversion Hnr as [|? ? Hp Hnr']; subst. simpl.
  destruct (state p) eqn:Hst;
    try (destruct (Qle_bool (c + cpu_request p) 100));
    simpl; unfold granted at 1; simpl; rewrite ?Hst; simpl;
    try congruence; f_equal; apply IH; assumption.
Qed.

Lemma length_admission_pass (m : Q) (l : list Process) :
  length (Spec.admission_pass m l) = length l.
Proof.
  revert m. induction l as [|p l IH]; intros m; simpl; [reflexivity|].
  destruct (state p); try destruct (Qle_bool (m + mem_request p) 2048);
    simpl; f_equal; apply IH.
Qed.

Lemma length_cpu_grant_pass (c : Q) (l : list Process) :
  length (Spec.cpu_grant_pass c l) = length l.
Proof.
  revert c. induction l as [|p l IH]; intros c; simpl; [reflexivity|].
  destruct (state p); try destruct (Qle_bool (c + cpu_request p) 100);
    simpl; f_equal; apply IH.
Qed.

Lemma length_granted_states (heap : list Process) :
  length (granted_states heap) = length heap.
Proof.
  unfold granted_states.
  rewrite length_map, length_cpu_grant_pass, length_admission_pass.
  reflexivity.
Qed.

Lemma allocate_spec (heap : list Process) :
  allocate heap = (granted_states heap, running_refs 0 (granted_states heap)).
Proof.
  unfold allocate, granted_states.
  destruct (admit_loop_app heap [] 0 []) as [m Ha].
  cbn [length app] in Ha. rewrite Ha.
  destruct (grant_loop_app (Spec.admission_pass 0 heap) [] 0 []
              (admission_pass_not_running 0 heap)) as [c Hg].
  cbn [length app] in Hg. rewrite Hg. reflexivity.
Qed.

Lemma tick_spec (heap : list Process) :
  tick heap = (map progress_step (granted_states heap),
               map row_of (granted_states heap)).
Proof.
  unfold tick. rewrite allocate_spec.
  pose proof (progress_loop_app (granted_states heap) []) as Hp.
  cbn [length app] in Hp. rewrite Hp. f_equal.
  assert (Hlen : length heap
                 = length (map progress_step (granted_states heap))).
  { rewrite length_map, length_granted_states. reflexivity. }
  rewrite Hlen.
  pose proof (rows_loop_app (map progress_step (granted_states heap)) []
                (running_refs 0 (granted_states heap))) as Hr.
  cbn [length app] in Hr. rewrite Hr.
  apply list_eq. intros i.
  rewrite list_lookup_imap.
  change (map row_of (granted_states heap))
    with (row_of <$> granted_states heap).
  change (map progress_step (granted_states heap))
    with (progress_step <$> granted_states heap).
  rewrite !list_lookup_fmap.
  pose proof (alloc_of_running_refs i 0 (granted_states heap)) as Ha.
  cbn [Nat.add] in *.
  destruct (granted_states heap !! i) as [q|]; simpl; [|reflexivity].
  rewrite Ha. reflexivity.
Qed.

End LoopInvariants.

(** ** Sums *)

Section Sums.

Import GUI.

Lemma fold_left_Qplus (xs : list Q) (a : Q) :
  fold_left Qplus xs a == a + fold_right Qplus 0 xs.
Proof.
  revert a. induction xs as [|x xs IH]; intros a; simpl.
  - lra.
  - rewrite IH. lra.
Qed.

Lemma py_sum_nil : py_sum [] == 0.
Proof. unfold py_sum. simpl. lra. Qed.

Lemma py_sum_cons (x : Q) (xs : list Q) : py_sum (x :: xs) == x + py_sum xs.
Proof.
  unfold py_sum. simpl. rewrite !fold_left_Qplus. lra.
Qed.

Lemma total_mem_nil : total_mem [] == 0.
Proof. apply py_sum_nil. Qed.

Lemma total_mem_cons (p : Process) (l : list Process) :
  total_mem (p :: l)
  == (if occupies_memory p then mem_request p else 0) + total_mem l.
Proof.
  unfold total_mem. simpl. destruct (occupies_memory p); simpl.
  - apply py_sum_cons.
  - lra.
Qed.

Lemma total_cpu_nil : total_cpu [] == 0.
Proof. apply py_sum_nil. Qed.

Lemma total_cpu_cons (p : Process) (l : list Process) :
  total_cpu (p :: l)
  == (if is_Running p then cpu_request p else 0) + total_cpu l.
Proof.
  unfold total_cpu. simpl. destruct (is_Running p); simpl.
  - apply py_sum_cons.
  - lra.
Qed.

End Sums.

(** ** Properties of the passes *)

Section Passes.

Import Scheduler GUI.

Lemma admission_pass_restated (m : Q) (l : list Process) :
  Forall2 restated l (Spec.admission_pass m l).
Proof.
  revert m. induction l as [|p l IH]; intros m; simpl; [constructor|].
  destruct (state p) eqn:Hst;
    try destruct (Qle_bool (m + mem_request p) 2048);
    (constructor; [|apply IH]); unfold restated; simpl; rewrite ?Hst;
    try (split; [reflexivity | split; congruence]).
  all: split; [symmetry; rewrite <- Hst; apply set_state_same | tauto].
Qed.

Lemma cpu_grant_pass_restated (c : Q) (l : list Process) :
  Forall2 restated l (map fst (Spec.cpu_grant_pass c l)).
Proof.
  revert c. induction l as [|p l IH]; intros c; simpl; [constructor|].
  destruct (state p) eqn:Hst;
    try destruct (Qle_bool (c + cpu_request p) 100);
    simpl; (constructor; [|apply IH]); unfold restated; simpl; rewrite ?Hst;
    try (split; [reflexivity | split; congruence]);
    (split; [symmetry; rewrite <- Hst; apply set_state_same | tauto]).
Qed.

Lemma restated_trans (p q r : Process) :
  restated p q -> restated q r -> restated p r.
Proof.
  unfold restated. intros [Hq Hpq] [Hr Hqr]. split; [|tauto].
  rewrite Hr, Hq. reflexivity.
Qed.

Lemma granted_states_restated (heap : list Process) :
  Forall2 restated heap (granted_states heap).
Proof.
  unfold granted_states.
  eapply Forall2_trans;
    [ | apply admission_pass_restated | apply cpu_grant_pass_restated ].
  intros p q r. apply restated_trans.
Qed.

Lemma granted_states_Forall (P : Process -> Prop) (heap : list Process) :
  (forall p s, P p -> P (set_state p s)) ->
  Forall P heap -> Forall P (granted_states heap).
Proof.
  intros HP Hall.
  pose proof (granted_states_restated heap) as H2.
  induction H2 as [|p q l l' [Hq _] _ IH]; [constructor|].
  inversion Hall; subst. constructor; [|apply IH; assumption].
  rewrite Hq. apply HP. assumption.
Qed.

(** *** Memory *)

Lemma admission_pass_mem (l : list Process) (m : Q) :
  m <= 2048 -> m + total_mem (Spec.admission_pass m l) <= 2048.
Proof.
  revert m. induction l as [|p l IH]; intros m Hm; simpl.
  - rewrite total_mem_nil. lra.
  - assert (Hadmit :
      Qle_bool (m + mem_request p) 2048 = true ->
      m + total_mem (set_state p Ready
                     :: Spec.admission_pass (m + mem_request p) l) <= 2048).
    { intros Hle. apply Qle_bool_iff in Hle. specialize (IH _ Hle).
      rewrite total_mem_cons. unfold occupies_memory. simpl. lra. }
    assert (Hwait :
      m + total_mem (set_state p Waiting :: Spec.admission_pass m l) <= 2048).
    { specialize (IH _ Hm).
      rewrite total_mem_cons. unfold occupies_memory. simpl. lra. }
    destruct (state p) eqn:Hst;
      try (destruct (Qle_bool (m + mem_request p) 2048);
           [apply Hadmit; reflexivity | apply Hwait]).
    specialize (IH _ Hm).
    rewrite total_mem_cons. unfold occupies_memory. rewrite Hst. lra.
Qed.

Lemma cpu_grant_pass_mem (l : list Process) (c : Q) :
  total_mem (map fst (Spec.cpu_grant_pass c l)) == total_mem l.
Proof.
  revert c. induction l as [|p l IH]; intros c; simpl; [reflexivity|].
  destruct (state p) eqn:Hst;
    try destruct (Qle_bool (c + cpu_request p) 100);
    simpl; rewrite !total_mem_cons, IH; unfold occupies_memory; simpl;
    rewrite ?Hst; lra.
Qed.

Lemma occupies_memory_progress_step (p : Process) :
  occupies_memory (progress_step p) = true -> occupies_memory p = true.
Proof.
  unfold progress_step, occupies_memory.
  destruct (state p) eqn:Hst; simpl; try rewrite Hst; try congruence.
Qed.

Lemma mem_request_progress_step (p : Process) :
  mem_request (progress_step p) = mem_request p.
Proof.
  unfold progress_step, advance.
  destruct (State_eqb (state p) Running); [|reflexivity].
  destruct (Qle_bool _ _); reflexivity.
Qed.

Lemma progress_step_mem (l : list Process) :
  Forall (fun p => 0 <= mem_request p) l ->
  total_mem (map progress_step l) <= total_mem l.
Proof.
  induction 1 as [|p l Hp _ IH]; simpl; [lra|].
  rewrite !total_mem_cons, mem_request_progress_step.
  pose proof (occupies_memory_progress_step p) as Hocc.
  destruct (occupies_memory (progress_step p)).
  - rewrite Hocc by reflexivity. lra.
  - destruct (occupies_memory p); lra.
Qed.

(** *** CPU *)

Lemma cpu_grant_pass_cpu (l : list Process) (c : Q) :
  c <= 100 -> c + py_sum (map snd (Spec.cpu_grant_pass c l)) <= 100.
Proof.
  revert c. induction l as [|p l IH]; intros c Hc; simpl.
  - rewrite py_sum_nil. lra.
  - assert (Hskip : forall q : Process,
      c + py_sum (map snd ((q, 0) :: Spec.cpu_grant_pass c l)) <= 100).
    { intros q. specialize (IH _ Hc). simpl. rewrite py_sum_cons. lra. }
    destruct (state p); try apply Hskip.
    destruct (Qle_bool (c + cpu_request p) 100) eqn:Hle; [|apply Hskip].
    apply Qle_bool_iff in Hle. specialize (IH _ Hle).
    simpl. rewrite py_sum_cons. lra.
Qed.

Lemma is_Running_progress_step (p : Process) :
  is_Running (progress_step p) = true -> is_Running p = true.
Proof.
  unfold progress_step, is_Running.
  destruct (State_eqb (state p) Running) eqn:Hr; intros H;
    [reflexivity | congruence].
Qed.

Lemma cpu_request_progress_step (p : Process) :
  cpu_request (progress_step p) = cpu_request p.
Proof.
  unfold progress_step, advance.
  destruct (State_eqb (state p) Running); [|reflexivity].
  destruct (Qle_bool _ _); reflexivity.
Qed.

Lemma progress_step_cpu (l : list Process) :
  Forall (fun p => 0 <= cpu_request p) l ->
  total_cpu (map progress_step l) <= py_sum (map granted l).
Proof.
  induction 1 as [|p l Hp _ IH]; simpl.
  - rewrite total_cpu_nil, py_sum_nil. lra.
  - rewrite total_cpu_cons, py_sum_cons, cpu_request_progress_step.
    pose proof (is_Running_progress_step p) as Hrun.
    change (granted p) with (if is_Running p then cpu_request p else 0).
    destruct (is_Running (progress_step p)).
    + rewrite Hrun by reflexivity. lra.
    + destruct (is_Running p); lra.
Qed.

(** *** Progress *)

Lemma scale_pos : 0 < scale.
Proof. reflexivity. Qed.

Lemma progress_advance (p : Process) (cpu_alloc : Q) :
  0 <= cpu_alloc -> progress p <= 100 ->
  progress p <= progress (advance p cpu_alloc)
  /\ progress (advance p cpu_alloc) <= 100.
Proof.
  intros Hc Hp.
  assert (Hs : 0 <= cpu_alloc * scale).
  { apply Qmult_le_0_compat; [assumption | apply Qlt_le_weak, scale_pos]. }
  unfold advance.
  assert (Hprog : forall q, progress (set_state q Completed) = progress q)
    by reflexivity.
  destruct (Qle_bool _ _); rewrite ?Hprog; cbn [progress set_progress];
    destruct (Q.min_spec 100 (progress p + cpu_alloc * scale))
      as [[Hlt ->]|[Hge ->]]; lra.
Qed.

Lemma progress_progress_step (p : Process) :
  0 <= cpu_request p -> progress p <= 100 ->
  progress p <= progress (progress_step p)
  /\ progress (progress_step p) <= 100.
Proof.
  intros Hc Hp. unfold progress_step.
  destruct (State_eqb (state p) Running).
  - apply progress_advance; assumption.
  - lra.
Qed.

End Passes.

(** ** The allocation passes and the two caps *)

Section Caps.

Import Scheduler GUI.

Lemma cpu_grant_pass_pairs (c : Q) (l : list Process) :
  Forall (fun p => state p <> Running) l ->
  Spec.cpu_grant_pass c l
  = map (fun p => (p, granted p)) (map fst (Spec.cpu_grant_pass c l)).
Proof.
  revert c. induction l as [|p l IH]; intros c Hnr; [reflexivity|].
  inversion Hnr as [|? ? Hp Hnr']; subst. simpl.
  destruct (state p) eqn:Hst;
    try destruct (Qle_bool (c + cpu_request p) 100);
    simpl; unfold granted at 1; simpl; rewrite ?Hst; simpl;
    try congruence; f_equal; apply IH; assumption.
Qed.

Lemma tick_total_mem (heap : list Process) :
  Forall (fun p => 0 <= mem_request p) heap ->
  total_mem (fst (tick heap)) <= 2048.
Proof.
  intros Hmem. rewrite tick_spec. cbn [fst].
  assert (Hgs : Forall (fun p => 0 <= mem_request p) (granted_states heap)).
  { apply granted_states_Forall; [intros p s Hp; exact Hp | assumption]. }
  apply progress_step_mem in Hgs.
  unfold granted_states in *.
  rewrite cpu_grant_pass_mem in Hgs.
  assert (H0 : 0 <= 2048) by lra.
  pose proof (admission_pass_mem heap 0 H0). lra.
Qed.

Lemma row_alloc_row_of (l : list Process) :
  map row_alloc_cpu (map row_of l) = map granted l.
Proof.
  induction l as [|q l IH]; [reflexivity|].
  simpl. rewrite IH. reflexivity.
Qed.

Lemma rows_alloc_granted (heap : list Process) :
  map row_alloc_cpu (snd (tick heap))
  = map snd (Spec.cpu_grant_pass 0 (Spec.admission_pass 0 heap)).
Proof.
  rewrite tick_spec. cbn [snd].
  rewrite cpu_grant_pass_granted by apply admission_pass_not_running.
  fold (granted_states heap). apply row_alloc_row_of.
Qed.

Lemma tick_rows_alloc (heap : list Process) :
  py_sum (map row_alloc_cpu (snd (tick heap))) <= 100.
Proof.
  rewrite rows_alloc_granted.
  assert (H0 : 0 <= 100) by lra.
  pose proof (cpu_grant_pass_cpu (Spec.admission_pass 0 heap) 0 H0). lra.
Qed.

Lemma allocated_running_rows (l : list Process) :
  allocated_running (map row_of l) == total_cpu (map progress_step l).
Proof.
  unfold allocated_running.
  induction l as [|q l IH]; [reflexivity|].
  rewrite !map_cons, total_cpu_cons, cpu_request_progress_step.
  cbn [List.filter]. cbn [row_of row_proc].
  pose proof (is_Running_progress_step q) as Hrun.
  destruct (is_Running (progress_step q)).
  - cbn [map row_alloc_cpu]. rewrite py_sum_cons, IH.
    change (row_alloc_cpu (row_of q))
      with (if is_Running q then cpu_request q else 0).
    rewrite Hrun by reflexivity. lra.
  - rewrite IH. lra.
Qed.

Lemma tick_total_cpu (heap : list Process) :
  Forall (fun p => 0 <= cpu_request p) heap ->
  total_cpu (fst (tick heap)) <= 100.
Proof.
  intros Hcpu.
  pose proof (tick_rows_alloc heap) as Hrows.
  rewrite tick_spec in *. cbn [fst snd] in *.
  assert (Hgs : Forall (fun p => 0 <= cpu_request p) (granted_states heap)).
  { apply granted_states_Forall; [intros p s Hp; exact Hp | assumption]. }
  apply progress_step_cpu in Hgs.
  rewrite row_alloc_row_of in Hrows. lra.
Qed.

End Caps.

(** ** One tick, object by object *)

Section PerObject.

Import Scheduler GUI.

Lemma tick_lookup (heap : list Process) (i : nat) (p : Process) :
  heap !! i = Some p ->
  exists q2, restated p q2
    /\ fst (tick heap) !! i = Some (progress_step q2)
    /\ snd (tick heap) !! i = Some (row_of q2).
Proof.
  intros Hi.
  destruct (Forall2_lookup_l _ _ _ _ _ (granted_states_restated heap) Hi)
    as (q2 & Hq2 & Hres).
  exists q2. split; [assumption|].
  rewrite tick_spec. cbn [fst snd].
  change (map progress_step (granted_states heap))
    with (progress_step <$> granted_states heap).
  change (map row_of (granted_states heap))
    with (row_of <$> granted_states heap).
  rewrite !list_lookup_fmap, Hq2. split; reflexivity.
Qed.

Lemma length_tick (heap : list Process) :
  length (fst (tick heap)) = length heap.
Proof.
  rewrite tick_spec. cbn [fst].
  rewrite length_map. apply length_granted_states.
Qed.

Lemma restated_fields (p q : Process) :
  restated p q ->
  pid q = pid p /\ name q = name p /\ cpu_request q = cpu_request p
  /\ mem_request q = mem_request p /\ progress q = progress p.
Proof. intros [-> _]. repeat split. Qed.

Lemma valid_progress_step (q : Process) :
  valid q -> valid (progress_step q).
Proof.
  intros (Hc & Hm & Hp). split; [|split].
  - rewrite cpu_request_progress_step. assumption.
  - rewrite mem_request_progress_step. assumption.
  - apply progress_progress_step; assumption.
Qed.

Lemma tick_progress (heap : list Process) (i : nat) (p : Process) :
  heap !! i = Some p -> valid p ->
  exists q, fst (tick heap) !! i = Some q
    /\ progress p <= progress q /\ progress q <= 100 /\ valid q.
Proof.
  intros Hi (Hc & Hm & Hp).
  destruct (tick_lookup heap i p Hi) as (q2 & Hres & Hq & _).
  apply restated_fields in Hres.
  destruct Hres as (_ & _ & Hcpu & Hmem & Hprog).
  assert (Hv : valid q2).
  { unfold valid. rewrite Hcpu, Hmem, Hprog. auto. }
  exists (progress_step q2). split; [assumption|].
  pose proof (valid_progress_step q2 Hv) as Hv'.
  destruct Hv as (Hc2 & _ & Hp2).
  pose proof (progress_progress_step q2 Hc2 Hp2) as [Hmono Hle].
  rewrite Hprog in Hmono. auto.
Qed.

Lemma tick_valid (heap : list Process) :
  Forall valid heap -> Forall valid (fst (tick heap)).
Proof.
  intros Hall. apply Forall_lookup. intros i q Hq.
  assert (Hlt : (i < length heap)%nat).
  { rewrite <- length_tick. eapply lookup_lt_Some. eassumption. }
  destruct (lookup_lt_is_Some_2 heap i Hlt) as [p Hp].
  assert (Hv : valid p) by (eapply Forall_lookup_1; eassumption).
  destruct (tick_progress heap i p Hp Hv) as (q' & Hq' & _ & _ & Hvq).
  congruence.
Qed.

Lemma tick_completed (heap : list Process) (i : nat) (p : Process) :
  heap !! i = Some p -> state p = Completed ->
  fst (tick heap) !! i = Some p
  /\ snd (tick heap) !! i = Some (mkRow p 0 0).
Proof.
  intros Hi Hc.
  destruct (tick_lookup heap i p Hi) as (q2 & [Hq2 Hiff] & Hq & Hrow).
  assert (Hc2 : state q2 = Completed) by (apply Hiff; assumption).
  assert (q2 = p).
  { rewrite Hq2, Hc2, <- Hc. apply set_state_same. }
  subst q2.
  assert (Hstep : progress_step p = p).
  { unfold progress_step. rewrite Hc. reflexivity. }
  rewrite Hq, Hrow. unfold row_of. rewrite Hstep.
  unfold granted, mem_display. rewrite Hc. split; reflexivity.
Qed.

Lemma ticks_completed (heap : list Process) (i : nat) (p : Process) (n : nat) :
  heap !! i = Some p -> state p = Completed -> ticks n heap !! i = Some p.
Proof.
  intros Hi Hc. induction n as [|n IH]; simpl; [assumption|].
  apply tick_completed; assumption.
Qed.

Lemma total_cpu_skip (l1 l2 : list Process) (q : Process) :
  is_Running q = false -> total_cpu (l1 ++ q :: l2) = total_cpu (l1 ++ l2).
Proof.
  intros Hq. unfold total_cpu.
  rewrite !List.filter_app. simpl. rewrite Hq. reflexivity.
Qed.

Lemma total_mem_skip (l1 l2 : list Process) (q : Process) :
  occupies_memory q = false -> total_mem (l1 ++ q :: l2) = total_mem (l1 ++ l2).
Proof.
  intros Hq. unfold total_mem.
  rewrite !List.filter_app. simpl. rewrite Hq. reflexivity.
Qed.

Lemma tick_completes (heap : list Process) (i : nat) (p : Process) :
  heap !! i = Some p -> state p <> Completed ->
  exists q row,
    fst (tick heap) !! i = Some q /\ snd (tick heap) !! i = Some row
    /\ row_proc row = q
    /\ (state q = Completed ->
        row_alloc_cpu row = cpu_request p /\ row_mem_used row = 0).
Proof.
  intros Hi Hnc.
  destruct (tick_lookup heap i p Hi) as (q2 & Hres & Hq & Hrow).
  exists (progress_step q2), (row_of q2).
  split; [assumption|]. split; [assumption|]. split; [reflexivity|].
  intros Hdone. split.
  - destruct Hres as [Hq2 Hiff]. unfold row_of, row_alloc_cpu, granted.
    revert Hdone. unfold progress_step.
    destruct (State_eqb (state q2) Running) eqn:Hr.
    + intros _. rewrite Hq2. reflexivity.
    + intros Hc. tauto.
  - unfold row_of, row_mem_used, mem_display. rewrite Hdone. reflexivity.
Qed.

(** *** Determinism *)

Lemma same_sched_set_state (p q : Process) (s : State) :
  same_sched p q -> same_sched (set_state p s) (set_state q s).
Proof. intros (_ & Hc & Hm & Hp). repeat split; assumption. Qed.

Lemma admission_pass_same (l1 l2 : list Process) (m : Q) :
  Forall2 same_sched l1 l2 ->
  Forall2 same_sched (Spec.admission_pass m l1) (Spec.admission_pass m l2).
Proof.
  intros H2. revert m.
  induction H2 as [|p q l1 l2 Hpq _ IH]; intros m; simpl; [constructor|].
  pose proof Hpq as (Hs & _ & Hm & _). rewrite <- Hs, <- Hm.
  destruct (state p);
    try destruct (Qle_bool (m + mem_request p) 2048);
    (constructor; [|apply IH]);
    try (apply same_sched_set_state); assumption.
Qed.

Lemma cpu_grant_pass_same (l1 l2 : list Process) (c : Q) :
  Forall2 same_sched l1 l2 ->
  Forall2 same_sched (map fst (Spec.cpu_grant_pass c l1))
                     (map fst (Spec.cpu_grant_pass c l2)).
Proof.
  intros H2. revert c.
  induction H2 as [|p q l1 l2 Hpq _ IH]; intros c; simpl; [constructor|].
  pose proof Hpq as (Hs & Hc & _ & _). rewrite <- Hs, <- Hc.
  destruct (state p);
    try destruct (Qle_bool (c + cpu_request p) 100);
    simpl; (constructor; [|apply IH]);
    try (apply same_sched_set_state); assumption.
Qed.

Lemma progress_step_same (p q : Process) :
  same_sched p q -> same_sched (progress_step p) (progress_step q).
Proof.
  intros (Hs & Hc & Hm & Hp). unfold progress_step, advance.
  rewrite <- Hs, <- Hc, <- Hp.
  destruct (State_eqb (state p) Running); [|repeat split; assumption].
  cbn [progress set_progress].
  destruct (Qle_bool 100 (Qmin 100 (progress p + cpu_request p * scale)));
    repeat split; simpl; assumption.
Qed.

Lemma row_of_same (p q : Process) :
  same_sched p q -> same_row (row_of p) (row_of q).
Proof.
  intros Hpq. pose proof (progress_step_same p q Hpq) as Hstep.
  unfold same_row, row_of. cbn [row_proc row_alloc_cpu row_mem_used].
  split; [assumption|]. split.
  - destruct Hpq as (Hs & Hc & _). unfold granted. rewrite Hs, Hc.
    reflexivity.
  - destruct Hstep as (Hs & _ & Hm & _). unfold mem_display.
    rewrite Hs, Hm. reflexivity.
Qed.

Lemma Forall2_map_rel {A B} (R : A -> A -> Prop) (S : B -> B -> Prop)
    (f : A -> B) (l1 l2 : list A) :
  (forall x y, R x y -> S (f x) (f y)) ->
  Forall2 R l1 l2 -> Forall2 S (map f l1) (map f l2).
Proof.
  intros Hf. induction 1; simpl; constructor; auto.
Qed.

End PerObject.

(** ** The registry under events *)

Section Registry.

Import Scheduler GUI.

Lemma values_combine (ks : list Z) (vs : list Process) :
  length ks = length vs -> values (combine ks vs) = vs.
Proof.
  revert vs. induction ks as [|k ks IH]; intros [|v vs] Hlen;
    simpl in *; try discriminate; [reflexivity|].
  f_equal. apply IH. lia.
Qed.

Lemma fst_scheduler_loop (g : t) :
  fst (scheduler_loop g)
  = mk (combine (keys (processes g)) (fst (tick (values (processes g)))))
       (next_pid g) (next_proc_index g).
Proof.
  unfold scheduler_loop. destruct (tick (values (processes g))). reflexivity.
Qed.

Lemma snd_scheduler_loop (g : t) :
  snd (scheduler_loop g) = snd (tick (values (processes g))).
Proof.
  unfold scheduler_loop. destruct (tick (values (processes g))). reflexivity.
Qed.

Lemma values_scheduler_loop (g : t) :
  values (processes (fst (scheduler_loop g)))
  = fst (tick (values (processes g))).
Proof.
  rewrite fst_scheduler_loop. cbn [processes].
  apply values_combine.
  rewrite length_tick. unfold keys, values. rewrite !length_map. reflexivity.
Qed.

Lemma dict_get_set_eq (k : Z) (v : Process) (d : list (Z * Process)) :
  dict_get k (dict_set k v d) = Some v.
Proof.
  induction d as [|[k' v'] d IH]; simpl.
  - rewrite Z.eqb_refl. reflexivity.
  - destruct (Z.eqb k' k) eqn:Hk; simpl.
    + rewrite Z.eqb_refl. reflexivity.
    + rewrite Hk. assumption.
Qed.

Lemma dict_get_combine (R : Process -> Process -> Prop)
    (d : list (Z * Process)) (vs : list Process) (k : Z) (p : Process) :
  Forall2 R (values d) vs -> dict_get k d = Some p ->
  exists q, dict_get k (combine (keys d) vs) = Some q /\ R p q.
Proof.
  revert vs. induction d as [|[k' v'] d IH]; intros vs H2 Hget;
    simpl in *; [discriminate|].
  inversion H2 as [|? q ? vs' Hr H2']; subst. simpl.
  destruct (Z.eqb k' k).
  - inversion Hget; subst. exists q. split; [reflexivity | assumption].
  - apply IH; assumption.
Qed.

Lemma dict_get_values (d : list (Z * Process)) (k : Z) (p : Process) :
  dict_get k d = Some p -> In p (values d).
Proof.
  induction d as [|[k' v'] d IH]; simpl; [discriminate|].
  destruct (Z.eqb k' k); intros H.
  - inversion H. left. reflexivity.
  - right. apply IH. assumption.
Qed.

Lemma Forall_values_dict_set (P : Process -> Prop) (k : Z) (v : Process)
    (d : list (Z * Process)) :
  P v -> Forall P (values d) -> Forall P (values (dict_set k v d)).
Proof.
  intros Hv. induction d as [|[k' v'] d IH]; simpl; intros Hd.
  - constructor; [assumption | constructor].
  - inversion Hd; subst. destruct (Z.eqb k' k); simpl; constructor;
      try assumption. apply IH. assumption.
Qed.

Lemma Forall_values_dict_pop (P : Process -> Prop) (k : Z)
    (d : list (Z * Process)) :
  Forall P (values d) -> Forall P (values (dict_pop k d)).
Proof.
  induction d as [|[k' v'] d IH]; simpl; intros Hd; [constructor|].
  inversion Hd; subst. destruct (Z.eqb k' k); simpl; [assumption|].
  constructor; [assumption | apply IH; assumption].
Qed.

Lemma inject_Z_nonneg (z : Z) : (0 <= z)%Z -> 0 <= inject_Z z.
Proof. intros Hz. unfold Qle. simpl. lia. Qed.

Lemma step_valid (e : Event) (g : t) :
  sliders_ok e -> Forall valid (values (processes g)) ->
  Forall valid (values (processes (step e g))).
Proof.
  intros Hok Hg. destruct e as [name_var c m|selected|askyesno|]; simpl.
  - unfold add_process. destruct (is_empty (strip name_var)); simpl;
      [assumption|].
    apply Forall_values_dict_set; [|assumption].
    destruct Hok as [Hc Hm]. split; [|split]; simpl; [| |lra];
      apply inject_Z_nonneg; lia.
  - unfold delete_selected_process. destruct selected; simpl; [assumption|].
    apply Forall_values_dict_pop. assumption.
  - unfold reset_all. destruct askyesno; simpl; [constructor | assumption].
  - rewrite values_scheduler_loop. apply tick_valid. assumption.
Qed.

Lemma fst_run_cons (e : Event) (es : list Event) (g : t) :
  fst (run (e :: es) g) = fst (run es (step e g)).
Proof. simpl. destruct (run es (step e g)). reflexivity. Qed.

Lemma run_valid (es : list Event) (g : t) :
  Forall sliders_ok es -> Forall valid (values (processes g)) ->
  Forall valid (values (processes (fst (run es g)))).
Proof.
  revert g. induction es as [|e es IH]; intros g Hes Hg; [assumption|].
  inversion Hes; subst. rewrite fst_run_cons.
  apply IH; [assumption|]. apply step_valid; assumption.
Qed.

Lemma tick_progress_Forall2 (heap : list Process) :
  Forall valid heap ->
  Forall2 (fun p q => progress p <= progress q /\ progress q <= 100)
          heap (fst (tick heap)).
Proof.
  intros Hall. apply Forall2_same_length_lookup_2.
  - symmetry. apply length_tick.
  - intros i p q Hp Hq.
    assert (Hv : valid p) by (eapply Forall_lookup_1; eassumption).
    destruct (tick_progress heap i p Hp Hv) as (q' & Hq' & Hmono & Hle & _).
    assert (q' = q) by congruence. subst. split; assumption.
Qed.

End Registry.

(** ** Identifiers and the Add event *)

Section Identifiers.

Import Scheduler GUI.

Lemma next_pid_step (e : Event) (g : t) :
  is_reset e = false ->
  next_pid (step e g)
  = match assigned e g with
    | Some _ => (next_pid g + 1)%Z
    | None => next_pid g
    end
  /\ (forall id, assigned e g = Some id -> id = next_pid g).
Proof.
  intros Hr. destruct e as [name_var c m|selected|askyesno|]; simpl.
  - unfold add_process. destruct (is_empty (strip name_var)); simpl.
    + split; [reflexivity | discriminate].
    + split; [reflexivity | intros id H; inversion H; reflexivity].
  - unfold delete_selected_process. destruct selected; simpl;
      (split; [reflexivity | discriminate]).
  - destruct askyesno; [discriminate|]. simpl.
    split; [reflexivity | discriminate].
  - rewrite fst_scheduler_loop. simpl. split; [reflexivity | discriminate].
Qed.

Lemma snd_run_cons (e : Event) (es : list Event) (g : t) :
  snd (run (e :: es) g)
  = match assigned e g with
    | Some i => i :: snd (run es (step e g))
    | None => snd (run es (step e g))
    end.
Proof. simpl. destruct (run es (step e g)). reflexivity. Qed.

Lemma run_ids (es : list Event) (g : t) (i : nat) (id : Z) :
  one_run es ->
  snd (run es g) !! i = Some id -> id = (next_pid g + Z.of_nat i)%Z.
Proof.
  unfold one_run. revert g i.
  induction es as [|e es IH]; intros g i Hrun Hid; [discriminate|].
  simpl in Hrun. apply andb_prop in Hrun. destruct Hrun as [He Hes].
  apply negb_true_iff in He.
  destruct (next_pid_step e g He) as [Hnext Hassigned].
  rewrite snd_run_cons in Hid.
  destruct (assigned e g) as [a|].
  - destruct i as [|i]; simpl in Hid.
    + inversion Hid; subst. rewrite (Hassigned id eq_refl). lia.
    + apply (IH _ _ Hes) in Hid. rewrite Hnext in Hid. lia.
  - apply (IH _ _ Hes) in Hid. rewrite Hnext in Hid. assumption.
Qed.

End Identifiers.

(** ** The claims *)

Section Claims.

Import Scheduler GUI.

(** C1. One tick assigns states by a two-pass greedy over the snapshot in
    order: the store and [running_procs] that the two loops of
    [scheduler_loop] leave are, object by object, what the admission pass
    (Waiting exactly when the running memory total plus [mem_request] would
    exceed 2048, otherwise Ready and counted) followed by the CPU-grant pass
    (Running with the full [cpu_request] exactly when the running CPU total
    plus [cpu_request] stays at most 100, otherwise Ready with 0) of the
    specification computes. *)
Theorem two_pass_greedy (heap : list Process) :
  allocation heap = Spec.cpu_grant_pass 0 (Spec.admission_pass 0 heap).
Proof.
  unfold allocation. rewrite allocate_spec.
  rewrite (cpu_grant_pass_pairs 0 (Spec.admission_pass 0 heap))
    by apply admission_pass_not_running.
  fold (granted_states heap).
  apply list_eq. intros i.
  rewrite list_lookup_imap.
  change (map (fun p => (p, granted p)) (granted_states heap))
    with ((fun p => (p, granted p)) <$> granted_states heap).
  rewrite list_lookup_fmap.
  pose proof (alloc_of_running_refs i 0 (granted_states heap)) as Ha.
  cbn [Nat.add] in Ha.
  destruct (granted_states heap !! i) as [q|]; simpl; [|reflexivity].
  rewrite Ha. reflexivity.
Qed.

(** C2. After a scheduling tick the sum of [mem_request] over the processes
    whose state is Ready or Running (the sum [update_system_usage] takes) is
    at most 2048: for every snapshot whose memory requests are not negative,
    and so after the tick of every state that the program reaches from its
    initial one. *)
Theorem memory_cap_invariant :
  (forall heap,
      Forall (fun p => 0 <= mem_request p) heap ->
      total_mem (fst (tick heap)) <= 2048)
  /\ (forall es,
        Forall sliders_ok es ->
        total_mem
          (values (processes (fst (scheduler_loop (fst (run es init))))))
        <= 2048).
Proof.
  split; [apply tick_total_mem|].
  intros es Hes. rewrite values_scheduler_loop.
  apply tick_total_mem.
  eapply Forall_impl; [apply run_valid; [assumption | constructor]|].
  intros p Hp. apply Hp.
Qed.

Lemma memory_cap_invariant_witness :
  total_mem
    (values (processes (fst (scheduler_loop (fst (run
       [Add "P1" 70 1500; Add "P2" 50 700; Add "P3" 20 500] init))))))
  <= 2048.
Proof.
  apply (proj2 memory_cap_invariant
           [Add "P1" 70 1500; Add "P2" 50 700; Add "P3" 20 500]).
  repeat constructor; simpl; lia.
Defined.

(** C3. After a scheduling tick the allocated CPU adds up to at most 100:
    over all the processes granted CPU in the tick, and, when no CPU request
    is negative (as in every state the program reaches), over those whose
    state is Running afterwards, both as the rows report it and as
    [update_system_usage] sums it. *)
Theorem cpu_cap_invariant :
  (forall heap, py_sum (map row_alloc_cpu (snd (tick heap))) <= 100)
  /\ (forall heap,
        Forall (fun p => 0 <= cpu_request p) heap ->
        allocated_running (snd (tick heap)) <= 100
        /\ total_cpu (fst (tick heap)) <= 100)
  /\ (forall es,
        Forall sliders_ok es ->
        allocated_running (snd (scheduler_loop (fst (run es init)))) <= 100
        /\ total_cpu
             (values (processes (fst (scheduler_loop (fst (run es init))))))
           <= 100).
Proof.
  assert (Hheap : forall heap,
             Forall (fun p => 0 <= cpu_request p) heap ->
             allocated_running (snd (tick heap)) <= 100
             /\ total_cpu (fst (tick heap)) <= 100).
  { intros heap Hcpu. pose proof (tick_total_cpu heap Hcpu) as Htot.
    split; [|exact Htot].
    rewrite tick_spec in *. cbn [fst snd] in *.
    rewrite allocated_running_rows. exact Htot. }
  split; [apply tick_rows_alloc|]. split; [exact Hheap|].
  intros es Hes. rewrite values_scheduler_loop, snd_scheduler_loop.
  apply Hheap.
  eapply Forall_impl; [apply run_valid; [assumption | constructor]|].
  intros p Hp. apply Hp.
Qed.

Lemma cpu_cap_invariant_witness :
  allocated_running
    (snd (scheduler_loop (fst (run
       [Add "P1" 70 100; Add "P2" 50 100; Add "P3" 20 100] init)))) <= 100
  /\ total_cpu
       (values (processes (fst (scheduler_loop (fst (run
          [Add "P1" 70 100; Add "P2" 50 100; Add "P3" 20 100] init))))))
     <= 100.
Proof.
  apply (proj2 (proj2 cpu_cap_invariant)
           [Add "P1" 70 100; Add "P2" 50 100; Add "P3" 20 100]).
  repeat constructor; simpl; lia.
Defined.

(** C4. Progress starts from 0 and, for every process of every state the
    program can reach, never exceeds 100 and is not decreased by a tick:
    its value after the next tick is at least its value before it. *)
Theorem progress_monotone :
  (forall name_var cpu_slider mem_slider g id,
      snd (add_process name_var cpu_slider mem_slider g) = Some id ->
      exists p0,
        dict_get id (processes
                       (fst (add_process name_var cpu_slider mem_slider g)))
        = Some p0
        /\ progress p0 = 0)
  /\ (forall es k p,
      Forall sliders_ok es ->
      dict_get k (processes (fst (run es init))) = Some p ->
      progress p <= 100
      /\ exists q,
          dict_get k (processes (fst (scheduler_loop (fst (run es init)))))
          = Some q
          /\ progress p <= progress q /\ progress q <= 100).
Proof.
  split.
  - intros name_var c m g id. unfold add_process.
    destruct (is_empty (strip name_var)); simpl; [discriminate|].
    intros Hid. inversion Hid; subst.
    eexists. split; [apply dict_get_set_eq | reflexivity].
  - intros es k p Hes Hget.
    assert (Hinv : Forall valid (values (processes (fst (run es init))))).
    { apply run_valid; [assumption | constructor]. }
    split.
    + apply dict_get_values in Hget.
      rewrite List.Forall_forall in Hinv. apply Hinv in Hget. apply Hget.
    + rewrite fst_scheduler_loop. cbn [processes].
      destruct (dict_get_combine _ _ _ k p
                  (tick_progress_Forall2 _ Hinv) Hget) as (q & Hq & Hmono).
      exists q. split; [assumption | exact Hmono].
Qed.

Lemma progress_monotone_witness :
  exists p,
    dict_get 1001 (processes (fst (run [Add "P1" 100 0; Tick] init))) = Some p
    /\ progress p <= 100
    /\ exists q,
        dict_get 1001
          (processes
             (fst (scheduler_loop (fst (run [Add "P1" 100 0; Tick] init)))))
        = Some q
        /\ progress p <= progress q /\ progress q <= 100.
Proof.
  eexists. split; [vm_compute; reflexivity|].
  apply (proj2 progress_monotone [Add "P1" 100 0; Tick] 1001%Z).
  - repeat constructor; simpl; lia.
  - vm_compute. reflexivity.
Defined.

(** C5, as the code has it.  A process that is Completed when a tick starts
    is left as it is by that tick and by every later one: after any number
    of ticks the object (state, progress and the rest) is the same, and each
    of these ticks reports allocated CPU 0 (and memory used 0) for it.  The
    tick during which a process completes reports its [cpu_request] as
    allocated CPU, and every tick after that one reports 0 and leaves the
    process as the completing tick left it. *)
Theorem completed_is_terminal (heap : list Process) (i : nat) (p : Process)
    (n : nat) :
  heap !! i = Some p ->
  (state p = Completed ->
   ticks (S n) heap !! i = Some p
   /\ snd (tick (ticks n heap)) !! i = Some (mkRow p 0 0))
  /\ (state p <> Completed ->
      forall q,
        fst (tick heap) !! i = Some q -> state q = Completed ->
        (exists row,
            snd (tick heap) !! i = Some row
            /\ row_proc row = q /\ row_alloc_cpu row = cpu_request p)
        /\ ticks (S n) (fst (tick heap)) !! i = Some q
        /\ snd (tick (ticks n (fst (tick heap)))) !! i = Some (mkRow q 0 0)).
Proof.
  intros Hi. split.
  - intros Hc.
    pose proof (ticks_completed heap i p n Hi Hc) as Hn.
    simpl. apply tick_completed; assumption.
  - intros Hnc q Hq Hqc.
    destruct (tick_completes heap i p Hi Hnc)
      as (q' & row & Hq' & Hrow & Hproc & Hdone).
    assert (Heq : q' = q) by congruence.
    split.
    + exists row. split; [assumption|]. split; [congruence|].
      apply Hdone. rewrite Heq. assumption.
    + pose proof (ticks_completed (fst (tick heap)) i q n Hq Hqc) as Hn.
      simpl. apply tick_completed; assumption.
Qed.

Lemma completed_is_terminal_witness :
  (ticks 3 [mkProcess 1001 "P1" 100 0 100 Completed;
            Process_init 1002 "P2" 60 512] !! 0%nat
   = Some (mkProcess 1001 "P1" 100 0 100 Completed)
   /\ snd (tick (ticks 2 [mkProcess 1001 "P1" 100 0 100 Completed;
                         Process_init 1002 "P2" 60 512])) !! 0%nat
      = Some (mkRow (mkProcess 1001 "P1" 100 0 100 Completed) 0 0))
  /\ exists q,
      fst (tick [mkProcess 1001 "P1" 100 0 97.5 Running]) !! 0%nat = Some q
      /\ state q = Completed
      /\ (exists row,
             snd (tick [mkProcess 1001 "P1" 100 0 97.5 Running]) !! 0%nat
             = Some row
             /\ row_proc row = q /\ row_alloc_cpu row = 100)
      /\ ticks 3 (fst (tick [mkProcess 1001 "P1" 100 0 97.5 Running])) !! 0%nat
         = Some q
      /\ snd (tick (ticks 2 (fst (tick [mkProcess 1001 "P1" 100 0 97.5
                                                  Running])))) !! 0%nat
         = Some (mkRow q 0 0).
Proof.
  split.
  - apply (proj1 (completed_is_terminal
                    [mkProcess 1001 "P1" 100 0 100 Completed;
                     Process_init 1002 "P2" 60 512] 0
                    (mkProcess 1001 "P1" 100 0 100 Completed) 2 eq_refl)).
    reflexivity.
  - eexists. split; [reflexivity|]. split; [reflexivity|].
    apply (proj2 (completed_is_terminal
                    [mkProcess 1001 "P1" 100 0 97.5 Running] 0
                    (mkProcess 1001 "P1" 100 0 97.5 Running) 2 eq_refl)).
    + discriminate.
    + reflexivity.
    + reflexivity.
Defined.

(** C5, as the claim states it, fails on the allocated CPU: add one process
    with CPU request 100 and memory request 0 and let the scheduler tick.
    The 14th tick completes it and reports allocated CPU 100; the process is
    Completed when the 15th tick starts, and that tick reports 0. *)
Lemma completed_alloc_drops :
  exists p row14 row15,
    snd (scheduler_loop (fst (run (Add "P1" 100 0 :: repeat Tick 13) init)))
    = [row14]
    /\ values (processes (fst (run (Add "P1" 100 0 :: repeat Tick 14) init)))
       = [p]
    /\ state p = Completed
    /\ snd (scheduler_loop (fst (run (Add "P1" 100 0 :: repeat Tick 14) init)))
       = [row15]
    /\ row_proc row14 = p /\ row_proc row15 = p
    /\ row_alloc_cpu row14 == 100
    /\ row_alloc_cpu row15 == 0
    /\ ~ row_alloc_cpu row15 == row_alloc_cpu row14.
Proof.
  eexists. eexists. eexists.
  split; [vm_compute; reflexivity|].
  split; [vm_compute; reflexivity|].
  split; [reflexivity|].
  split; [vm_compute; reflexivity|].
  split; [reflexivity|]. split; [reflexivity|].
  split; [reflexivity|]. split; [reflexivity|].
  simpl. intros H. discriminate H.
Qed.

(** C6, as the code has it.  A Completed process is left out of the
    aggregate CPU and memory sums, and the row of a tick for a process that
    is Completed after it shows memory used 0; the allocated CPU of that row
    is 0 when the process was already Completed at the start of the tick,
    and its [cpu_request] when the process completes in this tick. *)
Theorem completed_contribution (heap : list Process) (i : nat) (p : Process) :
  heap !! i = Some p ->
  exists q row,
    fst (tick heap) !! i = Some q /\ snd (tick heap) !! i = Some row
    /\ row_proc row = q
    /\ (state q = Completed ->
        row_mem_used row = 0
        /\ (state p = Completed -> row_alloc_cpu row = 0)
        /\ (state p <> Completed -> row_alloc_cpu row = cpu_request p)
        /\ forall l1 l2,
            total_cpu (l1 ++ q :: l2) = total_cpu (l1 ++ l2)
            /\ total_mem (l1 ++ q :: l2) = total_mem (l1 ++ l2)).
Proof.
  intros Hi.
  assert (Hskip : forall q, state q = Completed -> forall l1 l2,
            total_cpu (l1 ++ q :: l2) = total_cpu (l1 ++ l2)
            /\ total_mem (l1 ++ q :: l2) = total_mem (l1 ++ l2)).
  { intros q Hq l1 l2. split.
    - apply total_cpu_skip. unfold is_Running. rewrite Hq. reflexivity.
    - apply total_mem_skip. unfold occupies_memory. rewrite Hq. reflexivity. }
  destruct (State_eqb (state p) Completed) eqn:Hc.
  - apply State_eqb_eq in Hc.
    destruct (tick_completed heap i p Hi Hc) as [Hq Hrow].
    exists p, (mkRow p 0 0). repeat split; try assumption; try reflexivity.
    + intros Hnc. contradiction.
    + apply Hskip. assumption.
    + apply Hskip. assumption.
  - apply State_eqb_neq in Hc.
    destruct (tick_completes heap i p Hi Hc)
      as (q & row & Hq & Hrow & Hproc & Hdone).
    exists q, row. repeat split; try assumption.
    + apply Hdone. assumption.
    + intros Hpc. contradiction.
    + intros _. apply Hdone. assumption.
    + apply Hskip. assumption.
    + apply Hskip. assumption.
Qed.

Lemma completed_contribution_witness :
  exists q row,
    fst (tick [mkProcess 1001 "P1" 100 0 97.5 Running]) !! 0%nat = Some q
    /\ snd (tick [mkProcess 1001 "P1" 100 0 97.5 Running]) !! 0%nat = Some row
    /\ row_proc row = q
    /\ (state q = Completed ->
        row_mem_used row = 0
        /\ (Running = Completed -> row_alloc_cpu row = 0)
        /\ (Running <> Completed -> row_alloc_cpu row = 100)
        /\ forall l1 l2,
            total_cpu (l1 ++ q :: l2) = total_cpu (l1 ++ l2)
            /\ total_mem (l1 ++ q :: l2) = total_mem (l1 ++ l2)).
Proof.
  apply (completed_contribution [mkProcess 1001 "P1" 100 0 97.5 Running] 0
           (mkProcess 1001 "P1" 100 0 97.5 Running)).
  reflexivity.
Defined.

(** C6, as the claim states it, fails: add one process with CPU request 100
    and memory request 0 and let the scheduler tick; the row that the 14th
    tick sends to the table has state Completed and allocated CPU 100,
    not 0. *)
Lemma completed_row_reports_grant :
  exists row,
    snd (scheduler_loop (fst (run (Add "P1" 100 0 :: repeat Tick 13) init)))
    = [row]
    /\ state (row_proc row) = Completed
    /\ ~ row_alloc_cpu row == 0.
Proof.
  eexists. split; [vm_compute; reflexivity|].
  split; [reflexivity|].
  simpl. intros H. discriminate H.
Qed.

(** C7. The tick is deterministic, and what it computes depends only on
    what the claim lists: two snapshots that agree, position by position, on
    state, requests and progress give results that agree on state, progress
    and allocated CPU (and memory used).  Two runs on one snapshot are the
    case where the two snapshots are the same. *)
Theorem tick_deterministic (heap1 heap2 : list Process) :
  Forall2 same_sched heap1 heap2 ->
  Forall2 same_sched (fst (tick heap1)) (fst (tick heap2))
  /\ Forall2 same_row (snd (tick heap1)) (snd (tick heap2)).
Proof.
  intros H2. rewrite !tick_spec. cbn [fst snd].
  assert (Hgs : Forall2 same_sched (granted_states heap1)
                        (granted_states heap2)).
  { unfold granted_states. apply cpu_grant_pass_same, admission_pass_same.
    assumption. }
  split.
  - eapply Forall2_map_rel; [apply progress_step_same | assumption].
  - eapply Forall2_map_rel; [apply row_of_same | assumption].
Qed.

Lemma tick_deterministic_witness :
  Forall2 same_sched
    (fst (tick [Process_init 1001 "P1" 70 1500; Process_init 1002 "P2" 50 700]))
    (fst (tick [Process_init 7 "A" 70 1500; Process_init 8 "B" 50 700]))
  /\ Forall2 same_row
    (snd (tick [Process_init 1001 "P1" 70 1500; Process_init 1002 "P2" 50 700]))
    (snd (tick [Process_init 7 "A" 70 1500; Process_init 8 "B" 50 700])).
Proof.
  apply (tick_deterministic
           [Process_init 1001 "P1" 70 1500; Process_init 1002 "P2" 50 700]
           [Process_init 7 "A" 70 1500; Process_init 8 "B" 50 700]).
  repeat constructor.
Defined.

(** C8. In exact arithmetic the rate is 0.075.  A lone process with CPU
    request 100 and memory request 0 is granted 100 in each of its first 14
    ticks; after [k] ticks, for [k] from 0 to 13, it is not Completed and its
    progress is 7.5 * k; after the 14th tick it is Completed with progress
    100 (the clamp of 105). *)
Theorem lone_process_completion (pid : Z) (name : pystr) :
  scale == 0.075
  /\ Forall
       (fun k =>
          exists p row,
            ticks k [Process_init pid name 100 0] = [p]
            /\ state p <> Completed
            /\ progress p == 7.5 * inject_Z (Z.of_nat k)
            /\ snd (tick (ticks k [Process_init pid name 100 0])) = [row]
            /\ row_alloc_cpu row = 100)
       (seq 0 14)
  /\ exists p,
       ticks 14 [Process_init pid name 100 0] = [p]
       /\ state p = Completed /\ progress p == 100.
Proof.
  split; [reflexivity|]. split.
  - repeat (apply Forall_cons; split;
            [ eexists; eexists;
              split; [vm_compute; reflexivity|];
              split; [simpl; discriminate|];
              split; [reflexivity|];
              split; [vm_compute; reflexivity | reflexivity]
            | ]).
    apply Forall_nil. exact I.
  - eexists. split; [vm_compute; reflexivity|].
    split; reflexivity.
Qed.

(** C9. The first id is 1001; within a run (any events, removals included,
    but no confirmed reset) the [i]-th Add that goes through gets the id
    [next_pid + i], so ids strictly increase and none is handed out twice;
    the id handed out is the key and the pid of the new process; a confirmed
    reset puts the next id back to 1001. *)
Theorem ids_increase_and_reset :
  next_pid init = 1001%Z
  /\ (forall es g i id,
        one_run es -> snd (run es g) !! i = Some id ->
        id = (next_pid g + Z.of_nat i)%Z)
  /\ (forall es g i j a b,
        one_run es ->
        snd (run es g) !! i = Some a -> snd (run es g) !! j = Some b ->
        (i < j)%nat -> (a < b)%Z)
  /\ (forall name_var cpu_slider mem_slider g id,
        snd (add_process name_var cpu_slider mem_slider g) = Some id ->
        exists p,
          dict_get id (processes
                         (fst (add_process name_var cpu_slider mem_slider g)))
          = Some p
          /\ pid p = id)
  /\ (forall g, next_pid (reset_all true g) = 1001%Z).
Proof.
  split; [reflexivity|]. split; [apply run_ids|]. split; [|split].
  - intros es g i j a b Hrun Ha Hb Hlt.
    apply (run_ids es g i a Hrun) in Ha.
    apply (run_ids es g j b Hrun) in Hb. lia.
  - intros name_var c m g id. unfold add_process.
    destruct (is_empty (strip name_var)); simpl; [discriminate|].
    intros Hid. inversion Hid; subst.
    eexists. split; [apply dict_get_set_eq | reflexivity].
  - intros g. reflexivity.
Qed.

Lemma ids_increase_and_reset_witness :
  snd (run [Add "P1" 10 256; Add "P2" 20 256; Delete [1002%Z]; Tick;
            Add "P3" 30 256] init)
  = [1001; 1002; 1003]%Z
  /\ (1002 = next_pid init + Z.of_nat 1)%Z.
Proof.
  split; [reflexivity|].
  apply (proj1 (proj2 ids_increase_and_reset)
           [Add "P1" 10 256; Add "P2" 20 256; Delete [1002%Z]; Tick;
            Add "P3" 30 256] init 1%nat 1002%Z).
  - reflexivity.
  - reflexivity.
Defined.

(** C10. Add checks no capacity: whatever the registry holds, a process
    added under a name that is not blank is stored Ready with progress 0 and
    the requests of the sliders.  So before the next tick the Ready
    processes can ask for more than 2048 MB together (two Adds of 2048 MB
    give 4096), and the tick brings the occupied memory back under the
    cap. *)
Theorem add_checks_no_capacity :
  (forall name_var cpu_slider mem_slider g,
      is_empty (strip name_var) = false ->
      exists p,
        dict_get (next_pid g)
          (processes (fst (add_process name_var cpu_slider mem_slider g)))
        = Some p
        /\ state p = Ready /\ progress p = 0
        /\ cpu_request p = inject_Z cpu_slider
        /\ mem_request p = inject_Z mem_slider)
  /\ 2048 < ready_mem (values (processes
                (fst (run [Add "P1" 10 2048; Add "P2" 10 2048] init))))
  /\ total_mem (values (processes
        (fst (run [Add "P1" 10 2048; Add "P2" 10 2048; Tick] init))))
     <= 2048.
Proof.
  split; [|split].
  - intros name_var c m g Hname. unfold add_process. rewrite Hname. simpl.
    eexists. split; [apply dict_get_set_eq|]. repeat split.
  - vm_compute. reflexivity.
  - vm_compute. discriminate.
Qed.

Lemma add_checks_no_capacity_witness :
  exists p,
    dict_get 1002
      (processes
         (fst (add_process "P2" 10 2048 (fst (run [Add "P1" 10 2048] init)))))
    = Some p
    /\ state p = Ready /\ progress p = 0
    /\ cpu_request p = inject_Z 10
    /\ mem_request p = inject_Z 2048.
Proof.
  apply (proj1 add_checks_no_capacity "P2"%string 10%Z 2048%Z
           (fst (run [Add "P1" 10 2048] init))).
  reflexivity.
Defined.

End Claims.

(** ** Reachable states *)

Section Reachable.

Import Scheduler GUI.

Lemma fst_run_app (es1 es2 : list Event) (g : t) :
  fst (run (es1 ++ es2) g) = fst (run es2 (fst (run es1 g))).
Proof.
  revert g. induction es1 as [|e es1 IH]; intros g; [reflexivity|].
  rewrite <- app_comm_cons, !fst_run_cons. apply IH.
Qed.

Lemma reachable_init : reachable init.
Proof. exists []. split; [constructor | reflexivity]. Qed.

Lemma reachable_step (e : Event) (g : t) :
  sliders_ok e -> reachable g -> reachable (step e g).
Proof.
  intros He (es & Hes & ->). exists (es ++ [e]). split.
  - apply Forall_app. split; [assumption | constructor; [assumption|constructor]].
  - rewrite fst_run_app. simpl. destruct (step e (fst (run es init))).
    reflexivity.
Qed.

Lemma reachable_inv (P : t -> Prop) :
  P init ->
  (forall e g, sliders_ok e -> reachable g -> P g -> P (step e g)) ->
  forall g, reachable g -> P g.
Proof.
  intros Hinit Hstep g (es & Hes & ->).
  assert (Hgen : forall g0, reachable g0 -> P g0 ->
                            reachable (fst (run es g0)) /\ P (fst (run es g0))).
  { induction Hes as [|e es He Hes IH]; intros g0 Hr Hp; [split; assumption|].
    rewrite fst_run_cons. apply IH.
    - apply reachable_step; assumption.
    - apply Hstep; assumption. }
  apply Hgen; [apply reachable_init | assumption].
Qed.

End Reachable.

(** ** The registry: keys, counters, Add and Delete *)

Section RegistryInvariants.

Import Scheduler GUI.

Lemma dict_set_fresh (k : Z) (v : Process) (d : list (Z * Process)) :
  Forall (fun kp => (fst kp < k)%Z) d -> dict_set k v d = d ++ [(k, v)].
Proof.
  induction 1 as [|[k' v'] d Hk _ IH]; simpl; [reflexivity|].
  simpl in Hk. destruct (Z.eqb_spec k' k); [lia|]. rewrite IH. reflexivity.
Qed.

Lemma StronglySorted_snoc (l : list Z) (k : Z) :
  StronglySorted Z.lt l -> Forall (fun x => (x < k)%Z) l ->
  StronglySorted Z.lt (l ++ [k]).
Proof.
  induction 1 as [|x l Hs IH Hx]; intros Hk; simpl.
  - constructor; constructor.
  - inversion Hk; subst. constructor; [apply IH; assumption|].
    apply Forall_app. split; [assumption | constructor; [assumption|constructor]].
Qed.

Lemma keys_app (d1 d2 : list (Z * Process)) :
  keys (d1 ++ d2) = keys d1 ++ keys d2.
Proof. unfold keys. apply map_app. Qed.

Lemma keys_combine (ks : list Z) (vs : list Process) :
  length ks = length vs -> keys (combine ks vs) = ks.
Proof.
  revert vs. induction ks as [|k ks IH]; intros [|v vs] Hlen;
    simpl in *; try discriminate; [reflexivity|].
  f_equal. apply IH. lia.
Qed.

Lemma In_keys_dict_pop (k x : Z) (d : list (Z * Process)) :
  In x (keys (dict_pop k d)) -> In x (keys d).
Proof.
  induction d as [|[k' v'] d IH]; simpl; [trivial|].
  destruct (Z.eqb k' k); simpl; intros H.
  - right. assumption.
  - destruct H as [H|H]; [left; assumption | right; apply IH; assumption].
Qed.

Lemma StronglySorted_dict_pop (k : Z) (d : list (Z * Process)) :
  StronglySorted Z.lt (keys d) -> StronglySorted Z.lt (keys (dict_pop k d)).
Proof.
  induction d as [|[k' v'] d IH]; simpl; intros Hs; [constructor|].
  inversion Hs as [|? ? Hs' Hall]; subst.
  destruct (Z.eqb k' k); simpl; [assumption|].
  constructor; [apply IH; assumption|].
  rewrite List.Forall_forall in *. intros x Hx.
  apply Hall. eapply In_keys_dict_pop. eassumption.
Qed.

Lemma Forall_dict_pop (P : Z * Process -> Prop) (k : Z)
    (d : list (Z * Process)) :
  Forall P d -> Forall P (dict_pop k d).
Proof.
  induction 1 as [|[k' v'] d Hp Hd IH]; simpl; [constructor|].
  destruct (Z.eqb k' k); [assumption | constructor; assumption].
Qed.

Lemma progress_step_static (q : Process) : same_static q (progress_step q).
Proof.
  unfold same_static, progress_step, advance.
  destruct (State_eqb (state q) Running); [|repeat split].
  destruct (Qle_bool _ _); repeat split.
Qed.

Lemma tick_same_static (heap : list Process) :
  Forall2 same_static heap (fst (tick heap)).
Proof.
  apply Forall2_same_length_lookup_2; [symmetry; apply length_tick|].
  intros i p q Hp Hq.
  destruct (tick_lookup heap i p Hp) as (q2 & Hres & Hq' & _).
  assert (q = progress_step q2) by congruence. subst q.
  apply restated_fields in Hres.
  destruct Hres as (H1 & H2 & H3 & H4 & _).
  destruct (progress_step_static q2) as (G1 & G2 & G3 & G4).
  unfold same_static. rewrite G1, G2, G3, G4. auto.
Qed.

Lemma Forall_combine_keys (P : Z -> Process -> Prop)
    (d : list (Z * Process)) (vs : list Process) :
  Forall2 (fun p q => forall k, P k p -> P k q) (values d) vs ->
  Forall (fun kp => P (fst kp) (snd kp)) d ->
  Forall (fun kp => P (fst kp) (snd kp)) (combine (keys d) vs).
Proof.
  revert vs. induction d as [|[k v] d IH]; intros vs H2 Hd; simpl in *.
  - constructor.
  - inversion H2 as [|? q ? vs' Hq H2']; subst. inversion Hd; subst.
    simpl. constructor; [apply Hq; assumption | apply IH; assumption].
Qed.

Lemma registry_ok_init : registry_ok init.
Proof.
  unfold registry_ok. simpl. repeat split; try constructor; discriminate.
Qed.

Lemma registry_ok_step (e : Event) (g : t) :
  registry_ok g -> registry_ok (step e g).
Proof.
  intros (Hs & Hk & Hn & Hc).
  destruct e as [name_var c m|selected|askyesno|]; simpl.
  - unfold add_process. destruct (is_empty (strip name_var)); simpl;
      [repeat split; assumption|].
    assert (Hlt : Forall (fun kp => (fst kp < next_pid g)%Z) (processes g)).
    { eapply Forall_impl; [exact Hk|]. intros kp [_ H]. simpl. lia. }
    unfold registry_ok. simpl. rewrite (dict_set_fresh _ _ _ Hlt).
    split; [|split; [|split]].
    + rewrite keys_app. simpl. apply StronglySorted_snoc; [assumption|].
      unfold keys. rewrite List.Forall_map. exact Hlt.
    + apply Forall_app. split.
      * eapply Forall_impl; [exact Hk|]. intros kp [H1 H2]. simpl in *.
        split; [assumption | lia].
      * constructor; [|constructor]. simpl. split; [reflexivity | lia].
    + lia.
    + lia.
  - unfold delete_selected_process. destruct selected as [|k sel]; simpl;
      [repeat split; assumption|].
    unfold registry_ok. simpl. split; [|split; [|split]]; try assumption.
    + apply StronglySorted_dict_pop. assumption.
    + apply Forall_dict_pop. assumption.
  - unfold reset_all. destruct askyesno; simpl;
      [apply registry_ok_init | repeat split; assumption].
  - rewrite fst_scheduler_loop. unfold registry_ok. simpl.
    assert (Hlen : length (keys (processes g))
                   = length (fst (tick (values (processes g))))).
    { rewrite length_tick. unfold keys, values. rewrite !length_map.
      reflexivity. }
    split; [|split; [|split]]; try assumption.
    + rewrite keys_combine by assumption. assumption.
    + apply (Forall_combine_keys
               (fun k p => k = pid p /\ (1001 <= k < next_pid g)%Z)).
      * eapply Forall2_impl; [apply tick_same_static|].
        intros p q (Hpid & _) k [H1 H2]. split; [congruence | assumption].
      * exact Hk.
Qed.

Lemma reachable_registry_ok (g : t) : reachable g -> registry_ok g.
Proof.
  apply reachable_inv; [apply registry_ok_init|].
  intros e g0 _ _. apply registry_ok_step.
Qed.

Lemma dict_get_None_lt (k : Z) (d : list (Z * Process)) :
  Forall (fun x => (k < x)%Z) (keys d) -> dict_get k d = None.
Proof.
  induction d as [|[k' v'] d IH]; simpl; intros H; [reflexivity|].
  inversion H; subst. destruct (Z.eqb_spec k' k); [lia|]. apply IH. assumption.
Qed.

Lemma dict_get_None_gt (k : Z) (d : list (Z * Process)) :
  Forall (fun kp => (fst kp < k)%Z) d -> dict_get k d = None.
Proof.
  induction 1 as [|[k' v'] d Hk _ IH]; simpl; [reflexivity|].
  simpl in Hk. destruct (Z.eqb_spec k' k); [lia|]. assumption.
Qed.

Lemma dict_get_app (k : Z) (d1 d2 : list (Z * Process)) :
  dict_get k (d1 ++ d2)
  = match dict_get k d1 with
    | Some v => Some v
    | None => dict_get k d2
    end.
Proof.
  induction d1 as [|[k' v'] d1 IH]; simpl; [reflexivity|].
  destruct (Z.eqb k' k); [reflexivity | assumption].
Qed.

Lemma dict_get_pop_eq (k : Z) (d : list (Z * Process)) :
  StronglySorted Z.lt (keys d) -> dict_get k (dict_pop k d) = None.
Proof.
  induction d as [|[k' v'] d IH]; simpl; intros Hs; [reflexivity|].
  inversion Hs as [|? ? Hs' Hall]; subst.
  destruct (Z.eqb_spec k' k).
  - subst. apply dict_get_None_lt. assumption.
  - simpl. destruct (Z.eqb_spec k' k); [contradiction|]. apply IH. assumption.
Qed.

Lemma dict_get_pop_ne (k k' : Z) (d : list (Z * Process)) :
  k' <> k -> dict_get k' (dict_pop k d) = dict_get k' d.
Proof.
  intros Hne. induction d as [|[a va] d IH]; simpl; [reflexivity|].
  destruct (Z.eqb_spec a k).
  - subst. destruct (Z.eqb_spec k k'); [congruence | reflexivity].
  - simpl. destruct (Z.eqb a k'); [reflexivity | assumption].
Qed.

Lemma dict_pop_absent (k : Z) (d : list (Z * Process)) :
  dict_get k d = None -> dict_pop k d = d.
Proof.
  induction d as [|[a va] d IH]; simpl; [reflexivity|].
  destruct (Z.eqb a k); [discriminate|]. intros H. rewrite IH; trivial.
Qed.

Lemma dict_get_In (k : Z) (p : Process) (d : list (Z * Process)) :
  StronglySorted Z.lt (keys d) -> In (k, p) d -> dict_get k d = Some p.
Proof.
  induction d as [|[a va] d IH]; simpl; intros Hs Hin; [contradiction|].
  inversion Hs as [|? ? Hs' Hall]; subst.
  destruct Hin as [Heq|Hin].
  - inversion Heq; subst. rewrite Z.eqb_refl. reflexivity.
  - destruct (Z.eqb_spec a k).
    + subst. rewrite List.Forall_forall in Hall.
      assert (k < k)%Z; [|lia]. apply Hall.
      unfold keys. apply (in_map fst _ _ Hin).
    + apply IH; assumption.
Qed.

Lemma StronglySorted_NoDup (l : list Z) :
  StronglySorted Z.lt l -> List.NoDup l.
Proof.
  induction 1 as [|x l Hs IH Hx]; constructor; [|assumption].
  intros Hin. rewrite List.Forall_forall in Hx.
  specialize (Hx _ Hin). lia.
Qed.

Lemma StronglySorted_length (l : list Z) (a b : Z) :
  StronglySorted Z.lt l -> Forall (fun x => (a <= x < b)%Z) l -> (a <= b)%Z ->
  (Z.of_nat (length l) <= b - a)%Z.
Proof.
  intros Hs. revert a. induction Hs as [|x l Hs IH Hx]; intros a Hr Hab.
  - simpl. lia.
  - inversion Hr as [|? ? Hxr Hr']; subst.
    assert (Hl : Forall (fun y => (x + 1 <= y < b)%Z) l).
    { rewrite List.Forall_forall in *. intros y Hy.
      specialize (Hx _ Hy). specialize (Hr' _ Hy). lia. }
    specialize (IH (x + 1)%Z Hl). cbn [length]. lia.
Qed.

End RegistryInvariants.

(** ** Names *)

Section Names.

Import GUI.

Lemma rstrip_empty (s : pystr) : rstrip s = [] <-> all_space s = true.
Proof.
  induction s as [|c s IH]; simpl; [tauto|].
  destruct (rstrip s) eqn:Hr.
  - destruct (is_space c); simpl.
    + split; intros _; [apply IH|]; reflexivity.
    + split; discriminate.
  - split; [discriminate|]. intros H. apply andb_prop in H.
    destruct H as [_ H]. apply IH in H. discriminate.
Qed.

Lemma lstrip_empty (s : pystr) : lstrip s = [] <-> all_space s = true.
Proof.
  induction s as [|c s IH]; simpl; [tauto|].
  destruct (is_space c); simpl; [assumption | split; discriminate].
Qed.

Lemma all_space_rstrip (s : pystr) :
  all_space (rstrip s) = true -> rstrip s = [].
Proof.
  induction s as [|c s IH]; simpl; [reflexivity|].
  destruct (rstrip s) eqn:Hr.
  - destruct (is_space c) eqn:Hc; simpl; [reflexivity|].
    rewrite Hc. discriminate.
  - intros H. simpl in H. apply andb_prop in H. destruct H as [_ H].
    apply IH in H. discriminate.
Qed.

Lemma is_empty_strip (s : pystr) : is_empty (strip s) = all_space s.
Proof.
  unfold strip.
  destruct (all_space s) eqn:Hs.
  - apply rstrip_empty in Hs. rewrite Hs. reflexivity.
  - destruct (lstrip (rstrip s)) eqn:Hl; [|reflexivity].
    apply lstrip_empty, all_space_rstrip, rstrip_empty in Hl. congruence.
Qed.

Lemma rstrip_idem (s : pystr) : rstrip (rstrip s) = rstrip s.
Proof.
  induction s as [|c s IH]; simpl; [reflexivity|].
  destruct (rstrip s) eqn:Hr.
  - destruct (is_space c) eqn:Hc; simpl; [reflexivity|].
    rewrite Hc. reflexivity.
  - simpl in *. rewrite IH. reflexivity.
Qed.

Lemma rstrip_lstrip (t : pystr) :
  rstrip t = t -> rstrip (lstrip t) = lstrip t.
Proof.
  induction t as [|c t IH]; simpl; [reflexivity|].
  intros H. destruct (is_space c) eqn:Hc.
  - apply IH. destruct (rstrip t) eqn:Hr.
    + discriminate.
    + inversion H. reflexivity.
  - simpl. rewrite Hc. exact H.
Qed.

Lemma lstrip_idem (t : pystr) : lstrip (lstrip t) = lstrip t.
Proof.
  induction t as [|c t IH]; simpl; [reflexivity|].
  destruct (is_space c) eqn:Hc; [assumption|]. simpl. rewrite Hc. reflexivity.
Qed.

Lemma strip_idem (s : pystr) : strip (strip s) = strip s.
Proof.
  unfold strip.
  rewrite (rstrip_lstrip (rstrip s) (rstrip_idem s)). apply lstrip_idem.
Qed.

End Names.

(** ** Further properties: the registry *)

Section RegistryProperties.

Import Scheduler GUI.

Lemma reachable_Forall (P : Process -> Prop) :
  (forall p q, same_static p q -> P p -> P q) ->
  (forall id name_var c m,
      is_empty (strip name_var) = false ->
      (1 <= c <= 100)%Z -> (0 <= m <= 2048)%Z ->
      P (Process_init id (strip name_var) (inject_Z c) (inject_Z m))) ->
  forall g, reachable g -> Forall P (values (processes g)).
Proof.
  intros Hstatic Hnew. apply reachable_inv; [constructor|].
  intros e g He _ IH.
  destruct e as [name_var c m|selected|askyesno|]; simpl.
  - unfold add_process. destruct (is_empty (strip name_var)) eqn:Hn; simpl;
      [assumption|].
    apply Forall_values_dict_set; [|assumption].
    destruct He as [Hc Hm]. apply Hnew; assumption.
  - unfold delete_selected_process. destruct selected; simpl; [assumption|].
    apply Forall_values_dict_pop. assumption.
  - unfold reset_all. destruct askyesno; simpl; [constructor | assumption].
  - rewrite values_scheduler_loop.
    pose proof (tick_same_static (values (processes g))) as H2.
    induction H2 as [|p q l l' Hpq _ IH2]; [constructor|].
    inversion IH; subst. constructor; [eapply Hstatic; eassumption|].
    apply IH2. assumption.
Qed.

Lemma reachable_witness (es : list Event) :
  Forall sliders_ok es -> reachable (fst (run es init)).
Proof. intros Hes. exists es. split; [assumption | reflexivity]. Qed.

(** X1. In every state the program reaches, the keys of the dictionary are
    strictly increasing in snapshot order, hence distinct; every entry is
    found under its key, its key is the pid of its process, and it lies
    between 1001 and the next pid. *)
Theorem live_ids_unique (g : t) :
  reachable g ->
  StronglySorted Z.lt (keys (processes g))
  /\ List.NoDup (keys (processes g))
  /\ forall k p,
      In (k, p) (processes g) ->
      dict_get k (processes g) = Some p
      /\ pid p = k /\ (1001 <= k < next_pid g)%Z.
Proof.
  intros Hr. destruct (reachable_registry_ok g Hr) as (Hs & Hk & _ & _).
  split; [assumption|]. split; [apply StronglySorted_NoDup; assumption|].
  intros k p Hin. split; [apply dict_get_In; assumption|].
  rewrite List.Forall_forall in Hk. specialize (Hk _ Hin). simpl in Hk.
  destruct Hk as [Hpid Hrange]. split; [congruence | assumption].
Qed.

Lemma live_ids_unique_witness :
  StronglySorted Z.lt
    (keys (processes (fst (run [Add "P1" 10 256; Add "P2" 20 256;
                                Delete [1001%Z]; Add "P3" 30 256] init))))
  /\ List.NoDup
       (keys (processes (fst (run [Add "P1" 10 256; Add "P2" 20 256;
                                   Delete [1001%Z]; Add "P3" 30 256] init))))
  /\ forall k p,
      In (k, p) (processes (fst (run [Add "P1" 10 256; Add "P2" 20 256;
                                      Delete [1001%Z]; Add "P3" 30 256] init))) ->
      dict_get k (processes (fst (run [Add "P1" 10 256; Add "P2" 20 256;
                                       Delete [1001%Z]; Add "P3" 30 256] init)))
      = Some p
      /\ pid p = k
      /\ (1001 <= k < next_pid (fst (run [Add "P1" 10 256; Add "P2" 20 256;
                                          Delete [1001%Z]; Add "P3" 30 256]
                                         init)))%Z.
Proof.
  apply (live_ids_unique
           (fst (run [Add "P1" 10 256; Add "P2" 20 256;
                      Delete [1001%Z]; Add "P3" 30 256] init))).
  apply reachable_witness. repeat constructor; simpl; lia.
Defined.

(** X2. In every state the program reaches, the two counters move
    together ([next_pid] is 1000 more than [next_proc_index]) and there are
    at most [next_pid - 1001] live processes. *)
Theorem counters_move_together (g : t) :
  reachable g ->
  next_pid g = (1000 + next_proc_index g)%Z
  /\ (Z.of_nat (length (processes g)) <= next_pid g - 1001)%Z.
Proof.
  intros Hr. destruct (reachable_registry_ok g Hr) as (Hs & Hk & Hn & Hc).
  split; [assumption|].
  replace (length (processes g)) with (length (keys (processes g)))
    by (unfold keys; apply length_map).
  apply StronglySorted_length; [assumption| |assumption].
  unfold keys. rewrite List.Forall_map.
  eapply Forall_impl; [exact Hk|]. intros kp [_ H]. exact H.
Qed.

Lemma counters_move_together_witness :
  next_pid (fst (run [Add "P1" 10 256; Add " " 20 256; Delete [1001%Z];
                      Add "P3" 30 256] init))
  = (1000 + next_proc_index
              (fst (run [Add "P1" 10 256; Add " " 20 256; Delete [1001%Z];
                         Add "P3" 30 256] init)))%Z
  /\ (Z.of_nat (length (processes
        (fst (run [Add "P1" 10 256; Add " " 20 256; Delete [1001%Z];
                   Add "P3" 30 256] init))))
      <= next_pid (fst (run [Add "P1" 10 256; Add " " 20 256; Delete [1001%Z];
                             Add "P3" 30 256] init)) - 1001)%Z.
Proof.
  apply (counters_move_together
           (fst (run [Add "P1" 10 256; Add " " 20 256; Delete [1001%Z];
                      Add "P3" 30 256] init))).
  apply reachable_witness. repeat constructor; simpl; lia.
Defined.

Lemma add_process_fresh (name_var : pystr) (cpu_slider mem_slider : Z) (g : t) :
  reachable g -> is_empty (strip name_var) = false ->
  processes (fst (add_process name_var cpu_slider mem_slider g))
  = processes g
    ++ [(next_pid g,
         Process_init (next_pid g) (strip name_var) (inject_Z cpu_slider)
                      (inject_Z mem_slider))]
  /\ forall k p,
      dict_get k (processes g) = Some p ->
      dict_get k (processes (fst (add_process name_var cpu_slider mem_slider g)))
      = Some p.
Proof.
  intros Hr Hname. destruct (reachable_registry_ok g Hr) as (_ & Hk & _ & _).
  assert (Happ : processes (fst (add_process name_var cpu_slider mem_slider g))
    = processes g
      ++ [(next_pid g,
           Process_init (next_pid g) (strip name_var) (inject_Z cpu_slider)
                        (inject_Z mem_slider))]).
  { unfold add_process. rewrite Hname. simpl. apply dict_set_fresh.
    eapply Forall_impl; [exact Hk|]. intros kp [_ H]. simpl. lia. }
  split; [exact Happ|].
  intros k p Hget. rewrite Happ, dict_get_app, Hget. reflexivity.
Qed.

(** X3. In every state the program reaches, an Add that goes through puts
    the new process last in the dictionary, under the next pid, and leaves
    every process already there where it was. *)
Theorem add_appends (name_var : pystr) (cpu_slider mem_slider : Z) (g : t) :
  reachable g -> is_empty (strip name_var) = false ->
  processes (fst (add_process name_var cpu_slider mem_slider g))
  = processes g
    ++ [(next_pid g,
         Process_init (next_pid g) (strip name_var) (inject_Z cpu_slider)
                      (inject_Z mem_slider))]
  /\ forall k p,
      dict_get k (processes g) = Some p ->
      dict_get k (processes (fst (add_process name_var cpu_slider mem_slider g)))
      = Some p.
Proof. apply add_process_fresh. Qed.

Lemma add_appends_witness :
  processes (fst (add_process " P2 " 20 512
                    (fst (run [Add "P1" 10 256; Tick] init))))
  = processes (fst (run [Add "P1" 10 256; Tick] init))
    ++ [(1002%Z, Process_init 1002 "P2" 20 512)].
Proof.
  apply (add_appends " P2 " 20 512 (fst (run [Add "P1" 10 256; Tick] init))).
  - apply reachable_witness. repeat constructor; simpl; lia.
  - reflexivity.
Defined.

(** X4. Add refuses exactly the names made of white space only (the empty
    name among them): then nothing changes and no pid is handed out;
    otherwise the next pid is handed out and both counters go up by one. *)
Theorem add_refuses_blank_names (name_var : pystr)
    (cpu_slider mem_slider : Z) (g : t) :
  if all_space name_var then
    add_process name_var cpu_slider mem_slider g = (g, None)
  else
    snd (add_process name_var cpu_slider mem_slider g) = Some (next_pid g)
    /\ next_pid (fst (add_process name_var cpu_slider mem_slider g))
       = (next_pid g + 1)%Z
    /\ next_proc_index (fst (add_process name_var cpu_slider mem_slider g))
       = (next_proc_index g + 1)%Z.
Proof.
  unfold add_process. rewrite is_empty_strip.
  destruct (all_space name_var); simpl; repeat split.
Qed.

(** X5. In every state the program reaches, the name of every process is
    not empty and has no white space at either end (stripping it again
    changes nothing). *)
Theorem stored_names_stripped (g : t) :
  reachable g ->
  Forall (fun p => name p <> [] /\ strip (name p) = name p)
         (values (processes g)).
Proof.
  apply reachable_Forall.
  - intros p q (_ & Hn & _) H. rewrite Hn. exact H.
  - intros id name_var c m Hname _ _. simpl. split; [|apply strip_idem].
    intros H. rewrite H in Hname. discriminate.
Qed.

Lemma stored_names_stripped_witness :
  Forall (fun p => name p <> [] /\ strip (name p) = name p)
         (values (processes
                    (fst (run [Add "  P1 " 10 256; Add "  " 20 256;
                               Add [12288; 80; 50; 8195]%N 30 256;
                               Tick] init)))).
Proof.
  apply (stored_names_stripped
           (fst (run [Add "  P1 " 10 256; Add "  " 20 256;
                      Add [12288; 80; 50; 8195]%N 30 256; Tick] init))).
  apply reachable_witness. repeat constructor; simpl; lia.
Defined.

(** X6. In every state the program reaches, Delete removes the process of
    the first selected row and nothing else: its pid is no longer found,
    every other pid is found as before (the other selected rows too), and
    the counters stay, so the pid is not handed out again. *)
Theorem delete_removes_selected (k : Z) (rest : list Z) (g : t) :
  reachable g ->
  dict_get k (processes (delete_selected_process (k :: rest) g)) = None
  /\ (forall k', k' <> k ->
        dict_get k' (processes (delete_selected_process (k :: rest) g))
        = dict_get k' (processes g))
  /\ next_pid (delete_selected_process (k :: rest) g) = next_pid g
  /\ next_proc_index (delete_selected_process (k :: rest) g)
     = next_proc_index g.
Proof.
  intros Hr. destruct (reachable_registry_ok g Hr) as (Hs & _).
  simpl. split; [apply dict_get_pop_eq; assumption|].
  split; [|split; reflexivity].
  intros k' Hne. apply dict_get_pop_ne. assumption.
Qed.

Lemma delete_removes_selected_witness :
  dict_get 1001
    (processes (delete_selected_process [1001%Z; 1002%Z]
                  (fst (run [Add "P1" 10 256; Add "P2" 20 256] init))))
  = None
  /\ (forall k', k' <> 1001%Z ->
        dict_get k'
          (processes (delete_selected_process [1001%Z; 1002%Z]
                        (fst (run [Add "P1" 10 256; Add "P2" 20 256] init))))
        = dict_get k'
            (processes (fst (run [Add "P1" 10 256; Add "P2" 20 256] init))))
  /\ next_pid (delete_selected_process [1001%Z; 1002%Z]
                 (fst (run [Add "P1" 10 256; Add "P2" 20 256] init)))
     = next_pid (fst (run [Add "P1" 10 256; Add "P2" 20 256] init))
  /\ next_proc_index (delete_selected_process [1001%Z; 1002%Z]
                        (fst (run [Add "P1" 10 256; Add "P2" 20 256] init)))
     = next_proc_index (fst (run [Add "P1" 10 256; Add "P2" 20 256] init)).
Proof.
  apply (delete_removes_selected 1001%Z [1002%Z]
           (fst (run [Add "P1" 10 256; Add "P2" 20 256] init))).
  apply reachable_witness. repeat constructor; simpl; lia.
Defined.

(** X7. Delete with no row selected, or with a first selected pid that the
    dictionary does not hold, changes nothing. *)
Theorem delete_unknown_is_noop (selected : list Z) (g : t) :
  match selected with
  | [] => True
  | k :: _ => dict_get k (processes g) = None
  end ->
  delete_selected_process selected g = g.
Proof.
  destruct g as [d n i]. destruct selected as [|k rest]; simpl;
    [reflexivity|].
  intros Hnone. rewrite (dict_pop_absent _ _ Hnone). reflexivity.
Qed.

Lemma delete_unknown_is_noop_witness :
  delete_selected_process [1005%Z]
    (fst (run [Add "P1" 10 256; Add "P2" 20 256] init))
  = fst (run [Add "P1" 10 256; Add "P2" 20 256] init).
Proof.
  apply (delete_unknown_is_noop [1005%Z]
           (fst (run [Add "P1" 10 256; Add "P2" 20 256] init))).
  reflexivity.
Defined.

Lemma tick_identity_progress (heap : list Process) :
  Forall valid heap ->
  Forall2 (fun p q => same_static p q /\ progress p <= progress q)
          heap (fst (tick heap)).
Proof.
  intros Hv. apply Forall2_same_length_lookup_2;
    [symmetry; apply length_tick|].
  intros i p q Hp Hq. split.
  - exact (Forall2_lookup_lr _ _ _ _ _ _ (tick_same_static heap) Hp Hq).
  - apply (Forall2_lookup_lr _ _ _ _ _ _ (tick_progress_Forall2 heap Hv) Hp Hq).
Qed.

Lemma reachable_valid (g : t) :
  reachable g -> Forall valid (values (processes g)).
Proof.
  intros (es & Hes & ->). apply run_valid; [assumption | constructor].
Qed.

(** X8. Whatever happens next in a state the program reaches (an Add, a
    Delete, a Reset or a tick), a process that is still in the dictionary
    afterwards has the pid, name and requests it had, and its progress has
    not gone down. *)
Theorem events_keep_identity (e : Event) (g : t) (k : Z) (p q : Process) :
  reachable g -> sliders_ok e ->
  dict_get k (processes g) = Some p ->
  dict_get k (processes (step e g)) = Some q ->
  same_static p q /\ progress p <= progress q.
Proof.
  intros Hr He Hp Hq.
  assert (Hsame : forall p', Some p = Some p' ->
                    same_static p p' /\ progress p <= progress p').
  { intros p' Heq. inversion Heq; subst. split; [repeat split | apply Qle_refl]. }
  destruct e as [name_var c m|selected|askyesno|]; simpl in Hq.
  - destruct (is_empty (strip name_var)) eqn:Hname.
    + unfold add_process in Hq. rewrite Hname in Hq. simpl in Hq.
      apply Hsame. congruence.
    + destruct (add_process_fresh name_var c m g Hr Hname) as [_ Hkeep].
      rewrite (Hkeep k p Hp) in Hq. apply Hsame. assumption.
  - destruct selected as [|k' rest]; simpl in Hq;
      [apply Hsame; congruence|].
    destruct (Z.eq_dec k k') as [->|Hne].
    + destruct (reachable_registry_ok g Hr) as (Hs & _).
      rewrite dict_get_pop_eq in Hq by assumption. discriminate.
    + rewrite dict_get_pop_ne in Hq by assumption. apply Hsame. congruence.
  - destruct askyesno; unfold reset_all in Hq; simpl in Hq; [discriminate|].
    apply Hsame. congruence.
  - rewrite fst_scheduler_loop in Hq. cbn [processes] in Hq.
    destruct (dict_get_combine _ _ _ k p
                (tick_identity_progress _ (reachable_valid g Hr)) Hp)
      as (q' & Hq' & HR).
    assert (q' = q) by congruence. subst. exact HR.
Qed.

Lemma events_keep_identity_witness :
  exists p q,
    dict_get 1001 (processes (fst (run [Add "P1" 40 256] init))) = Some p
    /\ dict_get 1001 (processes (step Tick (fst (run [Add "P1" 40 256] init))))
       = Some q
    /\ same_static p q /\ progress p <= progress q.
Proof.
  eexists. eexists.
  split; [vm_compute; reflexivity|].
  split; [vm_compute; reflexivity|].
  apply (events_keep_identity Tick (fst (run [Add "P1" 40 256] init)) 1001%Z).
  - apply reachable_witness. repeat constructor; simpl; lia.
  - exact I.
  - vm_compute. reflexivity.
  - vm_compute. reflexivity.
Defined.

End RegistryProperties.

(** ** Further properties: the tick *)

Section TickProperties.

Import Scheduler GUI.

Lemma admission_pass_app (m : Q) (l1 l2 : list Process) :
  Spec.admission_pass m (l1 ++ l2)
  = Spec.admission_pass m l1 ++ Spec.admission_pass (mem_after m l1) l2.
Proof.
  revert m. induction l1 as [|p l1 IH]; intros m; simpl; [reflexivity|].
  destruct (state p); try destruct (Qle_bool (m + mem_request p) 2048);
    simpl; rewrite IH; reflexivity.
Qed.

Lemma cpu_grant_pass_app (c : Q) (l1 l2 : list Process) :
  Spec.cpu_grant_pass c (l1 ++ l2)
  = Spec.cpu_grant_pass c l1 ++ Spec.cpu_grant_pass (cpu_after c l1) l2.
Proof.
  revert c. induction l1 as [|p l1 IH]; intros c; simpl; [reflexivity|].
  destruct (state p); try destruct (Qle_bool (c + cpu_request p) 100);
    simpl; rewrite IH; reflexivity.
Qed.

Lemma granted_states_app (l1 l2 : list Process) :
  granted_states (l1 ++ l2)
  = granted_states l1
    ++ map fst (Spec.cpu_grant_pass
                  (cpu_after 0 (Spec.admission_pass 0 l1))
                  (Spec.admission_pass (mem_after 0 l1) l2)).
Proof.
  unfold granted_states.
  rewrite admission_pass_app, cpu_grant_pass_app, map_app. reflexivity.
Qed.

Lemma tick_take_app (l1 l2 : list Process) :
  take (length l1) (fst (tick (l1 ++ l2))) = fst (tick l1)
  /\ take (length l1) (snd (tick (l1 ++ l2))) = snd (tick l1).
Proof.
  rewrite !tick_spec. cbn [fst snd].
  rewrite granted_states_app, !map_app.
  split; apply take_app_length'; rewrite length_map, length_granted_states;
    reflexivity.
Qed.

(** X9. First come, first served: what a tick does to the first processes
    of the snapshot, and the rows it sends for them, do not depend on the
    processes that come after them. *)
Theorem tick_prefix (l1 l2 : list Process) :
  take (length l1) (fst (tick (l1 ++ l2))) = fst (tick l1)
  /\ take (length l1) (snd (tick (l1 ++ l2))) = snd (tick l1).
Proof. apply tick_take_app. Qed.

Lemma combine_app_same {A B} (k1 k2 : list A) (v1 v2 : list B) :
  length k1 = length v1 ->
  combine (k1 ++ k2) (v1 ++ v2) = combine k1 v1 ++ combine k2 v2.
Proof.
  revert v1. induction k1 as [|k k1 IH]; intros [|v v1] Hlen;
    simpl in *; try discriminate; [reflexivity|].
  f_equal. apply IH. lia.
Qed.

Lemma values_app (d1 d2 : list (Z * Process)) :
  values (d1 ++ d2) = values d1 ++ values d2.
Proof. unfold values. apply map_app. Qed.

(** X10. In every state the program reaches, adding a process does not
    change what the next tick does to the processes already there: each of
    them comes out of the tick the same with or without the newcomer. *)
Theorem add_does_not_disturb (name_var : pystr) (cpu_slider mem_slider : Z)
    (g : t) (k : Z) (p : Process) :
  reachable g -> dict_get k (processes g) = Some p ->
  dict_get k
    (processes (fst (scheduler_loop
                       (fst (add_process name_var cpu_slider mem_slider g)))))
  = dict_get k (processes (fst (scheduler_loop g))).
Proof.
  intros Hr Hget.
  destruct (is_empty (strip name_var)) eqn:Hname.
  { unfold add_process. rewrite Hname. reflexivity. }
  destruct (add_process_fresh name_var cpu_slider mem_slider g Hr Hname)
    as [Happ _].
  rewrite !fst_scheduler_loop. cbn [processes]. rewrite Happ.
  rewrite keys_app, values_app.
  set (new := [(next_pid g,
                Process_init (next_pid g) (strip name_var)
                             (inject_Z cpu_slider) (inject_Z mem_slider))]).
  set (old := values (processes g)).
  destruct (tick_take_app old (values new)) as [Hpre _].
  rewrite <- (take_drop (length old) (fst (tick (old ++ values new)))), Hpre.
  rewrite combine_app_same.
  - rewrite dict_get_app.
    destruct (dict_get_combine (fun _ _ => True) (processes g)
                (fst (tick old)) k p) as (q & Hq & _); [|assumption|].
    + apply Forall2_same_length_lookup_2; [|trivial].
      symmetry. apply length_tick.
    + fold old in Hq. rewrite Hq. reflexivity.
  - rewrite length_tick. unfold keys, old, values. rewrite !length_map.
    reflexivity.
Qed.

Lemma add_does_not_disturb_witness :
  dict_get 1001
    (processes (fst (scheduler_loop
       (fst (add_process "P2" 90 2048
               (fst (run [Add "P1" 40 256; Tick] init)))))))
  = dict_get 1001
      (processes (fst (scheduler_loop
                         (fst (run [Add "P1" 40 256; Tick] init))))).
Proof.
  eapply (add_does_not_disturb "P2" 90 2048
            (fst (run [Add "P1" 40 256; Tick] init)) 1001%Z).
  - apply reachable_witness. repeat constructor; simpl; lia.
  - vm_compute. reflexivity.
Defined.

Lemma Qle_bool_false (x y : Q) : Qle_bool x y = false -> y < x.
Proof.
  intros H. destruct (Qlt_le_dec y x) as [Hlt|Hle]; [assumption|].
  apply Qle_bool_iff in Hle. congruence.
Qed.

(** X11. What a tick leaves for a process, by the state it ends in.
    Waiting: progress untouched, allocated CPU 0, memory used 0.  Ready (no
    CPU this tick): progress untouched (nothing is lost while starved),
    allocated CPU 0, memory used the full request.  Running: allocated CPU
    and memory used are the full requests, progress is below 100, and it has
    not gone down; it has gone up when the CPU request is at least 1, the
    least value the slider gives.  In every case pid, name and requests are
    the same. *)
Theorem row_by_state (heap : list Process) (i : nat) (p : Process) :
  heap !! i = Some p ->
  exists q row,
    fst (tick heap) !! i = Some q /\ snd (tick heap) !! i = Some row
    /\ row_proc row = q /\ same_static p q
    /\ match state q with
       | Waiting =>
         progress q = progress p
         /\ row_alloc_cpu row = 0 /\ row_mem_used row = 0
       | Ready =>
         progress q = progress p
         /\ row_alloc_cpu row = 0 /\ row_mem_used row = mem_request p
       | Running =>
         progress q < 100
         /\ (0 <= cpu_request p -> progress p <= progress q)
         /\ (1 <= cpu_request p -> progress p < progress q)
         /\ row_alloc_cpu row = cpu_request p
         /\ row_mem_used row = mem_request p
       | Completed => True
       end.
Proof.
  intros Hi.
  destruct (tick_lookup heap i p Hi) as (q2 & Hres & Hq & Hrow).
  exists (progress_step q2), (row_of q2).
  split; [assumption|]. split; [assumption|]. split; [reflexivity|].
  apply restated_fields in Hres.
  destruct Hres as (H1 & H2 & H3 & H4 & H5).
  split.
  { destruct (progress_step_static q2) as (G1 & G2 & G3 & G4).
    unfold same_static. rewrite G1, G2, G3, G4. auto. }
  unfold row_of, row_alloc_cpu, row_mem_used, granted, mem_display.
  unfold progress_step.
  destruct (state q2) eqn:Hst; cbn [State_eqb]; rewrite ?Hst; auto.
  unfold advance.
  destruct (Qle_bool 100 _) eqn:Hle; cbn [state set_state set_progress];
    [exact I|].
  assert (Hlt' : Qmin 100 (progress q2 + cpu_request q2 * scale) < 100)
    by (apply Qle_bool_false; exact Hle).
  rewrite Hst. unfold set_progress.
  cbn [progress mem_request cpu_request].
  rewrite <- H3, <- H4, <- H5.
  pose proof scale_pos as Hs.
  destruct (Q.min_spec 100 (progress q2 + cpu_request q2 * scale))
    as [[Hlt Heq]|[Hge Heq]]; [lra|].
  split; [assumption|]. split; [|split; [|split; reflexivity]].
  - intros Hc.
    assert (0 <= cpu_request q2 * scale)
      by (apply Qmult_le_0_compat; [assumption | apply Qlt_le_weak, Hs]).
    lra.
  - intros Hc.
    assert (0 < cpu_request q2 * scale)
      by (apply Qmult_lt_0_compat; [lra | assumption]).
    lra.
Qed.

Lemma row_by_state_witness :
  exists q row,
    fst (tick [Process_init 1001 "P1" 70 1500; Process_init 1002 "P2" 50 700])
      !! 0%nat = Some q
    /\ snd (tick [Process_init 1001 "P1" 70 1500;
                  Process_init 1002 "P2" 50 700]) !! 0%nat = Some row
    /\ row_proc row = q
    /\ same_static (Process_init 1001 "P1" 70 1500) q
    /\ match state q with
       | Waiting =>
         progress q = 0 /\ row_alloc_cpu row = 0 /\ row_mem_used row = 0
       | Ready =>
         progress q = 0 /\ row_alloc_cpu row = 0 /\ row_mem_used row = 1500
       | Running =>
         progress q < 100
         /\ (0 <= 70 -> 0 <= progress q)
         /\ (1 <= 70 -> 0 < progress q)
         /\ row_alloc_cpu row = 70 /\ row_mem_used row = 1500
       | Completed => True
       end.
Proof.
  apply (row_by_state
           [Process_init 1001 "P1" 70 1500; Process_init 1002 "P2" 50 700]
           0 (Process_init 1001 "P1" 70 1500)).
  reflexivity.
Defined.

(** X12. A tick keeps the keys of the dictionary, their order and the two
    counters, and sends one row per process, in snapshot order, each
    carrying the process as the tick left it. *)
Theorem tick_shape (g : t) :
  keys (processes (fst (scheduler_loop g))) = keys (processes g)
  /\ next_pid (fst (scheduler_loop g)) = next_pid g
  /\ next_proc_index (fst (scheduler_loop g)) = next_proc_index g
  /\ map row_proc (snd (scheduler_loop g))
     = values (processes (fst (scheduler_loop g))).
Proof.
  rewrite values_scheduler_loop, snd_scheduler_loop, fst_scheduler_loop.
  cbn [processes next_pid next_proc_index].
  split; [|split; [reflexivity|split; [reflexivity|]]].
  - apply keys_combine. rewrite length_tick.
    unfold keys, values. rewrite !length_map. reflexivity.
  - rewrite tick_spec. cbn [fst snd].
    induction (granted_states (values (processes g))) as [|q l IH];
      [reflexivity|].
    simpl. rewrite IH. reflexivity.
Qed.

Lemma progress_ok_advance (q : Process) (c : Q) :
  0 <= c -> state q = Running -> progress_ok q -> progress_ok (advance q c).
Proof.
  intros Hc Hst (H0 & H100 & Hiff).
  assert (Hs : 0 <= c * scale).
  { apply Qmult_le_0_compat; [assumption | apply Qlt_le_weak, scale_pos]. }
  assert (Hx0 : 0 <= Qmin 100 (progress q + c * scale)).
  { apply Q.min_glb; lra. }
  assert (Hx100 : Qmin 100 (progress q + c * scale) <= 100)
    by apply Q.le_min_l.
  unfold advance.
  destruct (Qle_bool 100 _) eqn:Hle; unfold progress_ok;
    cbn [progress state set_state set_progress] in *.
  - apply Qle_bool_iff in Hle. cbn [progress set_progress] in Hle.
    split; [assumption|]. split; [assumption|].
    split; [intros _; exact Hle | reflexivity].
  - apply Qle_bool_false in Hle. cbn [progress set_progress] in Hle.
    rewrite Hst. split; [assumption|]. split; [assumption|].
    split; [discriminate|].
    intros Hge. exfalso.
    apply (Qlt_irrefl 100). eapply Qle_lt_trans; eassumption.
Qed.

Lemma tick_healthy (heap : list Process) :
  Forall healthy heap -> Forall healthy (fst (tick heap)).
Proof.
  intros Hall. apply Forall_lookup. intros i q Hq.
  assert (Hlt : (i < length heap)%nat).
  { rewrite <- length_tick. eapply lookup_lt_Some. eassumption. }
  destruct (lookup_lt_is_Some_2 heap i Hlt) as [p Hp].
  assert (Hh : healthy p) by (eapply Forall_lookup_1; eassumption).
  destruct Hh as (Hc1 & Hc2 & Hm1 & Hm2 & Hok).
  destruct (tick_lookup heap i p Hp) as (q2 & Hres & Hq' & _).
  assert (q = progress_step q2) by congruence. subst q.
  destruct Hres as [Hq2 Hiff].
  assert (Hf : cpu_request q2 = cpu_request p /\ mem_request q2 = mem_request p
               /\ progress q2 = progress p) by (rewrite Hq2; auto).
  destruct Hf as (Hcq & Hmq & Hpq).
  assert (Hok2 : progress_ok q2).
  { destruct Hok as (H0 & H100 & Hc). unfold progress_ok. rewrite Hpq.
    repeat split; try assumption; tauto. }
  unfold healthy.
  rewrite cpu_request_progress_step, mem_request_progress_step, Hcq, Hmq.
  repeat split; try assumption; try apply Hok2;
    unfold progress_step;
    destruct (State_eqb (state q2) Running) eqn:Hr;
    try apply Hok2;
    apply State_eqb_eq in Hr;
    apply progress_ok_advance; try assumption; rewrite Hcq; lra.
Qed.

Lemma healthy_valid (p : Process) : healthy p -> valid p.
Proof.
  intros (Hc1 & _ & Hm1 & _ & _ & H100 & _). repeat split; try assumption. lra.
Qed.

Lemma inject_Z_le (a b : Z) : (a <= b)%Z -> inject_Z a <= inject_Z b.
Proof. intros H. rewrite <- Zle_Qle. assumption. Qed.

Lemma reachable_healthy (g : t) :
  reachable g -> Forall healthy (values (processes g)).
Proof.
  revert g.
  apply (reachable_inv (fun g => Forall healthy (values (processes g))));
    [constructor|].
  intros e g0 He _ IH.
  destruct e as [name_var c m|selected|askyesno|]; simpl.
  - unfold add_process. destruct (is_empty (strip name_var)); simpl;
      [assumption|].
    apply Forall_values_dict_set; [|assumption].
    destruct He as [[Hc1 Hc2] [Hm1 Hm2]].
    unfold healthy, progress_ok. simpl.
    repeat split;
      try (apply (inject_Z_le 1); assumption);
      try (apply (inject_Z_le _ 100); assumption);
      try (apply (inject_Z_le 0); assumption);
      try (apply (inject_Z_le _ 2048); assumption);
      try lra; try discriminate.
  - unfold delete_selected_process. destruct selected; simpl; [assumption|].
    apply Forall_values_dict_pop. assumption.
  - unfold reset_all. destruct askyesno; simpl; [constructor | assumption].
  - rewrite values_scheduler_loop. apply tick_healthy. assumption.
Qed.

(** X13. In every state the program reaches, every process has requests
    that are whole numbers inside the scales of the sliders (CPU 1 to 100,
    memory 0 to 2048), a progress between 0 and 100, and state Completed
    exactly when its progress is 100. *)
Theorem data_model_ranges (g : t) :
  reachable g ->
  Forall (fun p => slider_requests p /\ healthy p
                   /\ (state p = Completed <-> progress p == 100))
         (values (processes g)).
Proof.
  intros Hr.
  assert (Hs : Forall slider_requests (values (processes g))).
  { revert g Hr. apply reachable_Forall.
    - intros p q (_ & _ & Hc & Hm) (c & m & H1 & H2 & H3 & H4).
      exists c, m. rewrite Hc, Hm. auto.
    - intros id name_var c m _ Hc Hm. exists c, m. simpl. auto. }
  pose proof (reachable_healthy g Hr) as Hh.
  rewrite List.Forall_forall in *. intros p Hp.
  split; [apply Hs; assumption|]. split; [apply Hh; assumption|].
  destruct (Hh p Hp) as (_ & _ & _ & _ & H0 & H100 & Hiff).
  rewrite Hiff. split; intros H; lra.
Qed.

Lemma data_model_ranges_witness :
  Forall (fun p => slider_requests p /\ healthy p
                   /\ (state p = Completed <-> progress p == 100))
         (values (processes
            (fst (run (Add "P1" 100 0 :: Add "P2" 30 2048 :: repeat Tick 14)
                      init)))).
Proof.
  apply (data_model_ranges
           (fst (run (Add "P1" 100 0 :: Add "P2" 30 2048 :: repeat Tick 14)
                     init))).
  apply reachable_witness. repeat constructor; simpl; lia.
Defined.

(** *** The oldest unfinished process *)

Lemma admission_pass_completed (m : Q) (l : list Process) :
  Forall (fun x => state x = Completed) l ->
  Spec.admission_pass m l = l /\ mem_after m l = m.
Proof.
  induction 1 as [|p l Hp _ [IH1 IH2]]; simpl; [split; reflexivity|].
  rewrite Hp, IH1, IH2. split; reflexivity.
Qed.

Lemma cpu_grant_pass_completed (c : Q) (l : list Process) :
  Forall (fun x => state x = Completed) l ->
  map fst (Spec.cpu_grant_pass c l) = l /\ cpu_after c l = c.
Proof.
  induction 1 as [|p l Hp _ [IH1 IH2]]; simpl; [split; reflexivity|].
  rewrite Hp. simpl. rewrite IH1, IH2. split; reflexivity.
Qed.

Lemma progress_step_completed (l : list Process) :
  Forall (fun x => state x = Completed) l -> map progress_step l = l.
Proof.
  induction 1 as [|p l Hp _ IH]; simpl; [reflexivity|].
  rewrite IH. unfold progress_step. rewrite Hp. reflexivity.
Qed.

Lemma tick_all_completed (l : list Process) :
  Forall (fun x => state x = Completed) l -> fst (tick l) = l.
Proof.
  intros Hc. rewrite tick_spec. cbn [fst]. unfold granted_states.
  rewrite (proj1 (admission_pass_completed 0 l Hc)).
  rewrite (proj1 (cpu_grant_pass_completed 0 l Hc)).
  apply progress_step_completed. assumption.
Qed.

Lemma tick_app_shape (l1 l2 : list Process) :
  exists l2', fst (tick (l1 ++ l2)) = fst (tick l1) ++ l2'
              /\ length l2' = length l2.
Proof.
  exists (drop (length l1) (fst (tick (l1 ++ l2)))). split.
  - rewrite <- (proj1 (tick_take_app l1 l2)). symmetry. apply take_drop.
  - rewrite length_drop, length_tick, length_app. lia.
Qed.

Lemma tick_head_alone (done : list Process) (p : Process) :
  Forall (fun x => state x = Completed) done ->
  state p <> Completed ->
  mem_request p <= 2048 -> cpu_request p <= 100 ->
  fst (tick (done ++ [p]))
  = done ++ [advance (set_state p Running) (cpu_request p)].
Proof.
  intros Hdone Hp Hm Hc. rewrite tick_spec. cbn [fst].
  rewrite granted_states_app.
  destruct (admission_pass_completed 0 done Hdone) as [Ha1 Ha2].
  rewrite Ha1, Ha2.
  destruct (cpu_grant_pass_completed 0 done Hdone) as [Hg1 Hg2].
  rewrite Hg2. unfold granted_states. rewrite Ha1, Hg1.
  rewrite map_app, (progress_step_completed done Hdone). f_equal.
  assert (Hfit : Qle_bool (0 + mem_request p) 2048 = true)
    by (apply Qle_bool_iff; lra).
  assert (Hcpu : Qle_bool (0 + cpu_request p) 100 = true)
    by (apply Qle_bool_iff; lra).
  assert (Hadm : Spec.admission_pass 0 [p] = [set_state p Ready]).
  { simpl. rewrite Hfit. destruct (state p); congruence. }
  rewrite Hadm. simpl. rewrite Hcpu. reflexivity.
Qed.

Lemma tick_head (done : list Process) (p : Process) (rest : list Process) :
  Forall (fun x => state x = Completed) done ->
  state p <> Completed ->
  mem_request p <= 2048 -> cpu_request p <= 100 ->
  exists rest',
    fst (tick (done ++ p :: rest))
    = done ++ advance (set_state p Running) (cpu_request p) :: rest'
    /\ length rest' = length rest.
Proof.
  intros Hdone Hp Hm Hc.
  destruct (tick_app_shape (done ++ [p]) rest) as (rest' & Heq & Hlen).
  exists rest'. split; [|assumption].
  rewrite <- app_assoc in Heq. simpl in Heq.
  rewrite Heq, (tick_head_alone done p Hdone Hp Hm Hc), <- app_assoc.
  reflexivity.
Qed.

Lemma tick_done_prefix (done rest : list Process) :
  Forall (fun x => state x = Completed) done ->
  exists rest',
    fst (tick (done ++ rest)) = done ++ rest' /\ length rest' = length rest.
Proof.
  intros Hdone.
  destruct (tick_app_shape done rest) as (rest' & Heq & Hlen).
  exists rest'. rewrite Heq, (tick_all_completed done Hdone). auto.
Qed.

Lemma head_closed_form (done : list Process) (p : Process)
    (rest : list Process) (n : nat) :
  Forall (fun x => state x = Completed) done ->
  state p <> Completed -> progress p < 100 ->
  0 <= cpu_request p -> cpu_request p <= 100 -> mem_request p <= 2048 ->
  exists q rest',
    ticks n (done ++ p :: rest) = done ++ q :: rest'
    /\ length rest' = length rest
    /\ same_static p q
    /\ progress q
       == Qmin 100 (progress p
                    + inject_Z (Z.of_nat n) * (cpu_request p * scale))
    /\ (state q = Completed
        <-> 100 <= progress p
                   + inject_Z (Z.of_nat n) * (cpu_request p * scale)).
Proof.
  intros Hdone Hp Hprog Hc0 Hc100 Hm.
  assert (Hs : 0 <= cpu_request p * scale).
  { apply Qmult_le_0_compat; [assumption | apply Qlt_le_weak, scale_pos]. }
  induction n as [|n IH].
  - exists p, rest. split; [reflexivity|]. split; [reflexivity|].
    split; [repeat split|].
    replace (inject_Z (Z.of_nat 0)) with 0 by reflexivity.
    split.
    + rewrite Q.min_r; lra.
    + split; [contradiction | intros H; lra].
  - destruct IH as (q & rest' & Heq & Hlen & Hstat & Hpq & Hiff).
    assert (Hn : inject_Z (Z.of_nat (S n)) == inject_Z (Z.of_nat n) + 1).
    { rewrite Nat2Z.inj_succ. unfold Z.succ. rewrite inject_Z_plus.
      reflexivity. }
    cbn [ticks]. rewrite Heq.
    destruct (State_eqb (state q) Completed) eqn:Hq.
    + apply State_eqb_eq in Hq.
      assert (Hdone' : Forall (fun x => state x = Completed) (done ++ [q])).
      { apply Forall_app. split; [assumption|].
        constructor; [assumption | constructor]. }
      destruct (tick_done_prefix (done ++ [q]) rest' Hdone')
        as (rest'' & Heq' & Hlen').
      rewrite <- !app_assoc in Heq'. simpl in Heq'.
      exists q, rest''. split; [assumption|]. split; [congruence|].
      split; [assumption|].
      apply Hiff in Hq. rewrite Hn. split.
      * rewrite Hpq. rewrite !Q.min_l; lra.
      * split; [intros _; lra | intros _; apply Hiff; assumption].
    + apply State_eqb_neq in Hq.
      destruct Hstat as (S1 & S2 & S3 & S4).
      assert (Hlt : progress p
                    + inject_Z (Z.of_nat n) * (cpu_request p * scale) < 100).
      { apply Qnot_le_lt. intros H. apply Hq, Hiff. assumption. }
      assert (Hpq' : progress q
          == progress p + inject_Z (Z.of_nat n) * (cpu_request p * scale)).
      { rewrite Hpq. apply Q.min_r. lra. }
      destruct (tick_head done q rest' Hdone Hq) as (rest'' & Heq' & Hlen');
        [rewrite S4; assumption | rewrite S3; assumption |].
      exists (advance (set_state q Running) (cpu_request q)), rest''.
      split; [assumption|]. split; [congruence|].
      assert (Hx : progress (set_state q Running) + cpu_request q * scale
                   == progress p
                      + inject_Z (Z.of_nat (S n)) * (cpu_request p * scale)).
      { cbn [progress set_state]. rewrite S3, Hpq', Hn. ring. }
      unfold advance.
      destruct (Qle_bool 100 _) eqn:Hle;
        cbn [state progress set_state set_progress pid name cpu_request
             mem_request] in *.
      * apply Qle_bool_iff in Hle.
        split; [repeat split; assumption|].
        rewrite <- Hx. split; [reflexivity|].
        split; [intros _ | reflexivity].
        apply Q.min_glb_r in Hle. assumption.
      * apply Qle_bool_false in Hle.
        split; [repeat split; assumption|].
        rewrite <- Hx. split; [reflexivity|].
        split; [discriminate|].
        intros Hge. exfalso.
        rewrite Q.min_l in Hle by assumption. lra.
Qed.

Lemma head_progress_lookup (heap : list Process) (k : nat)
    (p : Process) (n : nat) :
  heap !! k = Some p ->
  Forall (fun x => state x = Completed) (take k heap) ->
  state p <> Completed -> progress p < 100 ->
  0 <= cpu_request p -> cpu_request p <= 100 -> mem_request p <= 2048 ->
  exists q,
    ticks n heap !! k = Some q
    /\ same_static p q
    /\ progress q
       == Qmin 100 (progress p
                    + inject_Z (Z.of_nat n) * (cpu_request p * scale))
    /\ (state q = Completed
        <-> 100 <= progress p
                   + inject_Z (Z.of_nat n) * (cpu_request p * scale)).
Proof.
  intros Hk Hdone Hp Hprog Hc0 Hc100 Hm.
  destruct (head_closed_form (take k heap) p (drop (S k) heap) n
              Hdone Hp Hprog Hc0 Hc100 Hm)
    as (q & rest' & Heq & _ & Hrest).
  rewrite (take_drop_middle heap k p Hk) in Heq.
  exists q. split; [|exact Hrest].
  rewrite Heq. apply list_lookup_middle.
  rewrite length_take. apply lookup_lt_Some in Hk. lia.
Qed.

Lemma length_ticks (n : nat) (heap : list Process) :
  length (ticks n heap) = length heap.
Proof.
  induction n as [|n IH]; [reflexivity|]. simpl. rewrite length_tick.
  assumption.
Qed.

Lemma ticks_completed_prefix (n k : nat) (heap : list Process) :
  Forall (fun x => state x = Completed) (take k heap) ->
  Forall (fun x => state x = Completed) (take k (ticks n heap)).
Proof.
  intros Hdone. apply Forall_lookup. intros i q Hq.
  apply lookup_take_Some in Hq. destruct Hq as [Hq Hlt].
  assert (Hi : (i < length heap)%nat).
  { rewrite <- (length_ticks n). eapply lookup_lt_Some. eassumption. }
  destruct (lookup_lt_is_Some_2 heap i Hi) as [p Hp].
  assert (Hc : state p = Completed).
  { eapply (Forall_lookup_1 _ _ i p Hdone).
    apply lookup_take_Some. split; assumption. }
  rewrite (ticks_completed heap i p n Hp Hc) in Hq.
  inversion Hq; subst. assumption.
Qed.

Lemma head_tick_lookup (heap : list Process) (k : nat) (q0 : Process) :
  heap !! k = Some q0 ->
  Forall (fun x => state x = Completed) (take k heap) ->
  state q0 <> Completed ->
  cpu_request q0 <= 100 -> mem_request q0 <= 2048 ->
  fst (tick heap) !! k
  = Some (advance (set_state q0 Running) (cpu_request q0))
  /\ exists row,
      snd (tick heap) !! k = Some row
      /\ row_alloc_cpu row = cpu_request q0.
Proof.
  intros Hk Hdone Hnc Hc Hm.
  assert (Hfst : fst (tick heap) !! k
                 = Some (advance (set_state q0 Running) (cpu_request q0))).
  { destruct (tick_head (take k heap) q0 (drop (S k) heap) Hdone Hnc Hm Hc)
      as (rest' & Heq & _).
    rewrite (take_drop_middle heap k q0 Hk) in Heq. rewrite Heq.
    apply list_lookup_middle.
    rewrite length_take. apply lookup_lt_Some in Hk. lia. }
  split; [assumption|].
  destruct (tick_lookup heap k q0 Hk) as (q2 & [Hq2 Hiff] & Hq & Hrow).
  exists (row_of q2). split; [assumption|].
  assert (Hstep : progress_step q2
                  = advance (set_state q0 Running) (cpu_request q0))
    by congruence.
  assert (Hrun : state q2 = Running).
  { destruct (State_eqb (state q2) Running) eqn:Hr;
      [apply State_eqb_eq; assumption|].
    exfalso. unfold progress_step in Hstep. rewrite Hr in Hstep.
    assert (Hst : state q2 = Running \/ state q2 = Completed).
    { rewrite Hstep. unfold advance.
      destruct (Qle_bool _ _); simpl; auto. }
    destruct Hst as [Hst|Hst].
    - apply State_eqb_neq in Hr. contradiction.
    - apply Hnc, Hiff. assumption. }
  unfold row_of, row_alloc_cpu, granted. rewrite Hrun. simpl.
  rewrite Hq2. reflexivity.
Qed.

(** X14. The oldest unfinished process is never held back: when every
    process before it in the snapshot is Completed and its requests fit the
    caps, then in every later tick that it starts unfinished it is granted
    its full CPU request and ends the tick Running or Completed, whatever
    the processes behind it ask for; its progress never goes down and its
    pid, name and requests stay. *)
Theorem oldest_unfinished_progress (heap : list Process) (k : nat)
    (p : Process) (n : nat) :
  heap !! k = Some p ->
  Forall (fun x => state x = Completed) (take k heap) ->
  state p <> Completed -> progress p < 100 ->
  0 <= cpu_request p -> cpu_request p <= 100 -> mem_request p <= 2048 ->
  exists q0 q row,
    ticks n heap !! k = Some q0
    /\ ticks (S n) heap !! k = Some q
    /\ snd (tick (ticks n heap)) !! k = Some row
    /\ same_static p q
    /\ progress q0 <= progress q
    /\ (state q0 <> Completed ->
        row_alloc_cpu row = cpu_request p
        /\ (state q = Running \/ state q = Completed)).
Proof.
  intros Hk Hdone Hp Hprog Hc0 Hc100 Hm.
  destruct (head_progress_lookup heap k p n Hk Hdone Hp Hprog Hc0 Hc100 Hm)
    as (q0 & Hq0 & (S1 & S2 & S3 & S4) & Hpq & _).
  assert (Hdone' : Forall (fun x => state x = Completed)
                          (take k (ticks n heap)))
    by (apply ticks_completed_prefix; assumption).
  assert (Hle0 : progress q0 <= 100) by (rewrite Hpq; apply Q.le_min_l).
  destruct (State_eqb (state q0) Completed) eqn:Hq0c.
  - apply State_eqb_eq in Hq0c.
    destruct (tick_completed (ticks n heap) k q0 Hq0 Hq0c) as [Hq Hrow].
    exists q0, q0, (mkRow q0 0 0). cbn [ticks].
    split; [assumption|]. split; [assumption|]. split; [assumption|].
    split; [repeat split; assumption|]. split; [apply Qle_refl|].
    intros Hn. contradiction.
  - apply State_eqb_neq in Hq0c.
    destruct (head_tick_lookup (ticks n heap) k q0 Hq0 Hdone' Hq0c)
      as (Hq & row & Hrow & Halloc);
      [rewrite S3; assumption | rewrite S4; assumption |].
    exists q0, (advance (set_state q0 Running) (cpu_request q0)), row.
    cbn [ticks].
    split; [assumption|]. split; [assumption|]. split; [assumption|].
    assert (Hadv : progress (set_state q0 Running)
                   <= progress (advance (set_state q0 Running)
                                        (cpu_request q0))).
    { apply progress_advance; [rewrite S3; assumption | exact Hle0]. }
    split; [|split; [exact Hadv|]].
    + unfold same_static, advance.
      destruct (Qle_bool _ _); simpl; repeat split; assumption.
    + intros _. split; [rewrite Halloc; assumption|].
      unfold advance. destruct (Qle_bool _ _); simpl; auto.
Qed.

Lemma oldest_unfinished_progress_witness :
  exists q0 q row,
    ticks 5 [mkProcess 1001 "P1" 100 0 100 Completed;
             Process_init 1002 "P2" 40 2048;
             Process_init 1003 "P3" 80 2048] !! 1%nat = Some q0
    /\ ticks 6 [mkProcess 1001 "P1" 100 0 100 Completed;
                Process_init 1002 "P2" 40 2048;
                Process_init 1003 "P3" 80 2048] !! 1%nat = Some q
    /\ snd (tick (ticks 5 [mkProcess 1001 "P1" 100 0 100 Completed;
                           Process_init 1002 "P2" 40 2048;
                           Process_init 1003 "P3" 80 2048])) !! 1%nat
       = Some row
    /\ same_static (Process_init 1002 "P2" 40 2048) q
    /\ progress q0 <= progress q
    /\ (state q0 <> Completed ->
        row_alloc_cpu row = 40
        /\ (state q = Running \/ state q = Completed)).
Proof.
  apply (oldest_unfinished_progress
           [mkProcess 1001 "P1" 100 0 100 Completed;
            Process_init 1002 "P2" 40 2048;
            Process_init 1003 "P3" 80 2048] 1
           (Process_init 1002 "P2" 40 2048) 5).
  - reflexivity.
  - repeat constructor.
  - discriminate.
  - reflexivity.
  - discriminate.
  - discriminate.
  - discriminate.
Defined.

(** *** Every process completes *)

Lemma ticks_add (a b : nat) (heap : list Process) :
  ticks (a + b) heap = ticks b (ticks a heap).
Proof.
  induction b as [|b IH]; [rewrite Nat.add_0_r; reflexivity|].
  rewrite Nat.add_succ_r. simpl. rewrite IH. reflexivity.
Qed.

Lemma ticks_healthy (n : nat) (heap : list Process) :
  Forall healthy heap -> Forall healthy (ticks n heap).
Proof.
  intros H. induction n as [|n IH]; [assumption|]. simpl.
  apply tick_healthy. assumption.
Qed.

Lemma head_completes (k : nat) (heap : list Process) :
  Forall healthy heap ->
  Forall (fun x => state x = Completed) (take k heap) ->
  Forall (fun x => state x = Completed) (take (S k) (ticks 1334 heap)).
Proof.
  intros Hh Hdone.
  destruct (heap !! k) as [p|] eqn:Hk.
  - assert (Hdone' : Forall (fun x => state x = Completed)
                            (take k (ticks 1334 heap)))
      by (apply ticks_completed_prefix; assumption).
    assert (Hq : exists q, ticks 1334 heap !! k = Some q
                           /\ state q = Completed).
    { destruct (State_eqb (state p) Completed) eqn:Hc.
      - apply State_eqb_eq in Hc. exists p.
        split; [apply ticks_completed|]; assumption.
      - apply State_eqb_neq in Hc.
        assert (Hp : healthy p) by (eapply Forall_lookup_1; eassumption).
        destruct Hp as (Hc1 & Hc2 & Hm1 & Hm2 & H0 & H100 & Hiff).
        assert (Hlt : progress p < 100).
        { apply Qnot_le_lt. intros H. apply Hc, Hiff. assumption. }
        destruct (head_progress_lookup heap k p 1334 Hk Hdone Hc Hlt)
          as (q & Hq & _ & _ & Hdoneq); try assumption; [lra|].
        exists q. split; [assumption|]. apply Hdoneq.
        assert (Hn : inject_Z (Z.of_nat 1334) == 1334) by reflexivity.
        rewrite Hn. unfold scale. lra. }
    destruct Hq as (q & Hq & Hqc).
    rewrite (take_S_r _ _ _ Hq). apply Forall_app. split; [assumption|].
    constructor; [assumption | constructor].
  - apply lookup_ge_None in Hk.
    rewrite take_ge by (rewrite length_ticks; lia).
    rewrite <- (take_ge (ticks 1334 heap) k) by (rewrite length_ticks; lia).
    apply ticks_completed_prefix. assumption.
Qed.

Lemma all_complete_prefix (k : nat) (heap : list Process) :
  Forall healthy heap ->
  Forall (fun x => state x = Completed) (take k (ticks (1334 * k) heap)).
Proof.
  intros Hh. induction k as [|k IH]; [constructor|].
  replace (1334 * S k)%nat with (1334 * k + 1334)%nat by lia.
  rewrite ticks_add. apply head_completes; [|assumption].
  apply ticks_healthy. assumption.
Qed.

Lemma run_ticks (n : nat) (g : t) :
  values (processes (fst (run (repeat Tick n) g)))
  = ticks n (values (processes g)).
Proof.
  revert g. induction n as [|n IH]; intros g; [reflexivity|].
  replace (repeat Tick (S n)) with (repeat Tick n ++ [Tick])
    by (rewrite <- repeat_cons; reflexivity).
  rewrite fst_run_app. cbn [ticks].
  rewrite <- IH.
  set (g' := fst (run (repeat Tick n) g)).
  simpl. destruct (step Tick g') eqn:Hs. simpl.
  rewrite <- values_scheduler_loop. simpl in Hs. rewrite Hs. reflexivity.
Qed.

Lemma total_cpu_completed (l : list Process) :
  Forall (fun x => state x = Completed) l -> total_cpu l = 0.
Proof.
  unfold total_cpu. induction 1 as [|p l Hp _ IH]; [reflexivity|].
  simpl. unfold is_Running at 1. rewrite Hp. simpl. assumption.
Qed.

Lemma total_mem_completed (l : list Process) :
  Forall (fun x => state x = Completed) l -> total_mem l = 0.
Proof.
  unfold total_mem. induction 1 as [|p l Hp _ IH]; [reflexivity|].
  simpl. unfold occupies_memory at 1. rewrite Hp. simpl. assumption.
Qed.

(** X15. Every process completes: from any state the program reaches, if
    nothing but ticks happens, 1334 ticks for each process in the
    dictionary bring every process to Completed; from then on a tick
    changes no process and both usage bars show 0. *)
Theorem every_process_completes (g : t) :
  reachable g ->
  Forall (fun x => state x = Completed)
    (values (processes
       (fst (run (repeat Tick (1334 * length (processes g))) g))))
  /\ values (processes
       (fst (scheduler_loop
          (fst (run (repeat Tick (1334 * length (processes g))) g)))))
     = values (processes
         (fst (run (repeat Tick (1334 * length (processes g))) g)))
  /\ fst (update_system_usage
            (fst (run (repeat Tick (1334 * length (processes g))) g))) == 0
  /\ snd (update_system_usage
            (fst (run (repeat Tick (1334 * length (processes g))) g))) == 0.
Proof.
  intros Hr.
  set (g' := fst (run (repeat Tick (1334 * length (processes g))) g)).
  assert (Hall : Forall (fun x => state x = Completed) (values (processes g'))).
  { unfold g'. rewrite run_ticks.
    pose proof (all_complete_prefix (length (processes g))
                  (values (processes g)) (reachable_healthy g Hr)) as H.
    rewrite take_ge in H; [assumption|].
    rewrite length_ticks. unfold values. rewrite length_map. lia. }
  split; [assumption|]. split.
  - rewrite values_scheduler_loop. apply tick_all_completed. assumption.
  - unfold update_system_usage. cbn [fst snd].
    rewrite (total_cpu_completed _ Hall), (total_mem_completed _ Hall).
    split; reflexivity.
Qed.

Lemma every_process_completes_witness :
  Forall (fun x => state x = Completed)
    (values (processes
       (fst (run (repeat Tick
                    (1334 * length (processes
                                      (fst (run [Add "P1" 1 2048;
                                                 Add "P2" 100 2048] init)))))
                 (fst (run [Add "P1" 1 2048; Add "P2" 100 2048] init)))))).
Proof.
  apply (every_process_completes
           (fst (run [Add "P1" 1 2048; Add "P2" 100 2048] init))).
  apply reachable_witness. repeat constructor; simpl; lia.
Defined.

(** *** When everything fits *)

Lemma demand_mem_cons (p : Process) (l : list Process) :
  demand_mem (p :: l)
  == (if not_Completed p then mem_request p else 0) + demand_mem l.
Proof.
  unfold demand_mem. simpl. destruct (not_Completed p); simpl.
  - apply py_sum_cons.
  - lra.
Qed.

Lemma demand_cpu_cons (p : Process) (l : list Process) :
  demand_cpu (p :: l)
  == (if not_Completed p then cpu_request p else 0) + demand_cpu l.
Proof.
  unfold demand_cpu. simpl. destruct (not_Completed p); simpl.
  - apply py_sum_cons.
  - lra.
Qed.

Lemma demand_mem_nonneg (l : list Process) :
  Forall (fun p => 0 <= mem_request p) l -> 0 <= demand_mem l.
Proof.
  induction 1 as [|p l Hp _ IH].
  - unfold demand_mem. simpl. rewrite py_sum_nil. lra.
  - rewrite demand_mem_cons. destruct (not_Completed p); lra.
Qed.

Lemma demand_cpu_nonneg (l : list Process) :
  Forall (fun p => 0 <= cpu_request p) l -> 0 <= demand_cpu l.
Proof.
  induction 1 as [|p l Hp _ IH].
  - unfold demand_cpu. simpl. rewrite py_sum_nil. lra.
  - rewrite demand_cpu_cons. destruct (not_Completed p); lra.
Qed.

Lemma unfinished_to_completed (s : State) (p : Process) :
  state p = Completed -> unfinished_to s p = p.
Proof. intros H. unfold unfinished_to, not_Completed. rewrite H. reflexivity. Qed.

Lemma unfinished_to_other (s : State) (p : Process) :
  state p <> Completed -> unfinished_to s p = set_state p s.
Proof.
  intros H. unfold unfinished_to, not_Completed.
  apply State_eqb_neq in H. rewrite H. reflexivity.
Qed.

Lemma not_Completed_true (p : Process) :
  state p <> Completed -> not_Completed p = true.
Proof.
  intros H. unfold not_Completed. apply State_eqb_neq in H. rewrite H.
  reflexivity.
Qed.

Lemma not_Completed_false (p : Process) :
  state p = Completed -> not_Completed p = false.
Proof. intros H. unfold not_Completed. rewrite H. reflexivity. Qed.

Lemma admission_pass_all (l : list Process) (m : Q) :
  Forall (fun p => 0 <= mem_request p) l ->
  m + demand_mem l <= 2048 ->
  Spec.admission_pass m l = map (unfinished_to Ready) l.
Proof.
  intros Hall. revert m. induction Hall as [|p l Hp Hl IH]; intros m Hfit;
    [reflexivity|].
  rewrite demand_mem_cons in Hfit.
  pose proof (demand_mem_nonneg l Hl) as Hnn.
  rewrite map_cons. cbn [Spec.admission_pass].
  destruct (State_eqb (state p) Completed) eqn:Hc.
  - apply State_eqb_eq in Hc.
    rewrite (not_Completed_false p Hc) in Hfit.
    rewrite (unfinished_to_completed _ p Hc), Hc. f_equal. apply IH. lra.
  - apply State_eqb_neq in Hc.
    rewrite (not_Completed_true p Hc) in Hfit.
    rewrite (unfinished_to_other _ p Hc).
    assert (Hle : Qle_bool (m + mem_request p) 2048 = true)
      by (apply Qle_bool_iff; lra).
    rewrite Hle.
    assert (Hhead : forall (X : Type) (a b : X),
               match state p with Completed => a | _ => b end = b).
    { intros X a b. destruct (state p); congruence. }
    rewrite Hhead. f_equal. apply IH. lra.
Qed.

Lemma cpu_grant_pass_all (l : list Process) (c : Q) :
  Forall (fun p => 0 <= cpu_request p) l ->
  c + demand_cpu l <= 100 ->
  map fst (Spec.cpu_grant_pass c (map (unfinished_to Ready) l))
  = map (unfinished_to Running) l.
Proof.
  intros Hall. revert c. induction Hall as [|p l Hp Hl IH]; intros c Hfit;
    [reflexivity|].
  rewrite demand_cpu_cons in Hfit.
  pose proof (demand_cpu_nonneg l Hl) as Hnn.
  rewrite !map_cons.
  destruct (State_eqb (state p) Completed) eqn:Hc.
  - apply State_eqb_eq in Hc.
    rewrite (not_Completed_false p Hc) in Hfit.
    rewrite !(unfinished_to_completed _ p Hc).
    cbn [Spec.cpu_grant_pass]. rewrite Hc. cbn [map fst].
    f_equal. apply IH. lra.
  - apply State_eqb_neq in Hc.
    rewrite (not_Completed_true p Hc) in Hfit.
    rewrite !(unfinished_to_other _ p Hc).
    cbn [Spec.cpu_grant_pass state set_state cpu_request].
    assert (Hle : Qle_bool (c + cpu_request p) 100 = true)
      by (apply Qle_bool_iff; lra).
    rewrite Hle. cbn [map fst]. f_equal. apply IH. lra.
Qed.

Lemma cpu_grant_pass_not_waiting (l : list Process) (c : Q) :
  Forall (fun q => state q <> Waiting) l ->
  Forall (fun q => state q <> Waiting) (map fst (Spec.cpu_grant_pass c l)).
Proof.
  intros Hall. revert c. induction Hall as [|p l Hp _ IH]; intros c;
    simpl; [constructor|].
  destruct (state p) eqn:Hst;
    try destruct (Qle_bool (c + cpu_request p) 100);
    simpl; (constructor; [|apply IH]); simpl; congruence.
Qed.

Lemma progress_step_state (q : Process) :
  state (progress_step q) = state q
  \/ (state q = Running /\ state (progress_step q) = Completed).
Proof.
  unfold progress_step, advance.
  destruct (State_eqb (state q) Running) eqn:Hr; [|left; reflexivity].
  apply State_eqb_eq in Hr.
  destruct (Qle_bool _ _); [right; split; [assumption | reflexivity]|].
  left. reflexivity.
Qed.

(** X16. When everything fits, nobody waits: if no request is negative and
    the memory requests of the processes that are not Completed add up to
    at most 2048, no process is Waiting after the tick; if their CPU
    requests also add up to at most 100, each of them is granted its full
    CPU request and is Running or Completed after the tick. *)
Theorem everything_fits (heap : list Process) :
  Forall (fun p => 0 <= mem_request p) heap ->
  Forall (fun p => 0 <= cpu_request p) heap ->
  demand_mem heap <= 2048 ->
  Forall (fun q => state q <> Waiting) (fst (tick heap))
  /\ (demand_cpu heap <= 100 ->
      map row_alloc_cpu (snd (tick heap))
      = map (fun p => if not_Completed p then cpu_request p else 0) heap
      /\ Forall (fun q => state q = Running \/ state q = Completed)
                (fst (tick heap))).
Proof.
  intros Hmem Hcpu Hfit.
  assert (Hadm : Spec.admission_pass 0 heap = map (unfinished_to Ready) heap)
    by (apply admission_pass_all; [assumption | lra]).
  rewrite tick_spec. cbn [fst snd]. unfold granted_states. rewrite Hadm.
  split.
  - assert (Hnw : Forall (fun q => state q <> Waiting)
                    (map fst (Spec.cpu_grant_pass 0
                                (map (unfinished_to Ready) heap)))).
    { apply cpu_grant_pass_not_waiting.
      clear. induction heap as [|p l IH]; simpl; constructor; [|assumption].
      unfold unfinished_to, not_Completed.
      destruct (state p) eqn:Hst; simpl; rewrite ?Hst; discriminate. }
    induction Hnw as [|q l Hq _ IH]; simpl; constructor; [|assumption].
    destruct (progress_step_state q) as [H|[_ H]]; rewrite H;
      [assumption | discriminate].
  - intros Hfitc.
    rewrite cpu_grant_pass_all by (try assumption; lra).
    clear. split.
    + induction heap as [|p l IH]; simpl; [reflexivity|].
      rewrite IH. f_equal.
      unfold unfinished_to, granted, not_Completed.
      destruct (state p) eqn:Hst; simpl; rewrite ?Hst; reflexivity.
    + induction heap as [|p l IH]; simpl; constructor; [|assumption].
      unfold unfinished_to, not_Completed.
      destruct (state p) eqn:Hst; simpl;
        try (destruct (progress_step_state (set_state p Running))
               as [H|[_ H]]; rewrite H; simpl; auto);
        unfold progress_step; rewrite Hst; simpl; auto.
Qed.

Lemma everything_fits_witness :
  Forall (fun q => state q <> Waiting)
    (fst (tick [Process_init 1001 "P1" 60 1024; Process_init 1002 "P2" 40 1024;
                mkProcess 1003 "P3" 100 2048 100 Completed]))
  /\ (demand_cpu [Process_init 1001 "P1" 60 1024;
                  Process_init 1002 "P2" 40 1024;
                  mkProcess 1003 "P3" 100 2048 100 Completed] <= 100 ->
      map row_alloc_cpu
        (snd (tick [Process_init 1001 "P1" 60 1024;
                    Process_init 1002 "P2" 40 1024;
                    mkProcess 1003 "P3" 100 2048 100 Completed]))
      = map (fun p => if not_Completed p then cpu_request p else 0)
            [Process_init 1001 "P1" 60 1024; Process_init 1002 "P2" 40 1024;
             mkProcess 1003 "P3" 100 2048 100 Completed]
      /\ Forall (fun q => state q = Running \/ state q = Completed)
           (fst (tick [Process_init 1001 "P1" 60 1024;
                       Process_init 1002 "P2" 40 1024;
                       mkProcess 1003 "P3" 100 2048 100 Completed]))).
Proof.
  apply (everything_fits
           [Process_init 1001 "P1" 60 1024; Process_init 1002 "P2" 40 1024;
            mkProcess 1003 "P3" 100 2048 100 Completed]).
  - repeat constructor; simpl; discriminate.
  - repeat constructor; simpl; discriminate.
  - vm_compute. discriminate.
Defined.

(** *** The usage bars and the canvas *)

Lemma total_cpu_nonneg (l : list Process) :
  Forall (fun p => 0 <= cpu_request p) l -> 0 <= total_cpu l.
Proof.
  induction 1 as [|p l Hp _ IH].
  - rewrite total_cpu_nil. lra.
  - rewrite total_cpu_cons. destruct (is_Running p); lra.
Qed.

Lemma total_mem_nonneg (l : list Process) :
  Forall (fun p => 0 <= mem_request p) l -> 0 <= total_mem l.
Proof.
  induction 1 as [|p l Hp _ IH].
  - rewrite total_mem_nil. lra.
  - rewrite total_mem_cons. destruct (occupies_memory p); lra.
Qed.

Lemma mem_percent_bounds (x : Q) :
  0 <= x -> 0 <= x / total_memory_mb * 100
  /\ (x <= 2048 -> x / total_memory_mb * 100 <= 100).
Proof.
  intros Hx. unfold total_memory_mb.
  assert (Heq : x / 2048 * 100 == x * (25 # 512)) by (field; discriminate).
  rewrite Heq. split; [|intros Hle]; lra.
Qed.

(** X17. In every state the program reaches, both usage bars show a value
    between 0 and 100; right after a tick neither clamp is active: the CPU
    bar is the sum of the CPU requests of the Running processes and the
    memory bar is the memory of the Ready and Running processes as a
    percentage of 2048. *)
Theorem usage_bars (g : t) :
  reachable g ->
  (0 <= fst (update_system_usage g) /\ fst (update_system_usage g) <= 100
   /\ 0 <= snd (update_system_usage g) /\ snd (update_system_usage g) <= 100)
  /\ fst (update_system_usage (fst (scheduler_loop g)))
     == total_cpu (values (processes (fst (scheduler_loop g))))
  /\ snd (update_system_usage (fst (scheduler_loop g)))
     == total_mem (values (processes (fst (scheduler_loop g))))
        / total_memory_mb * 100.
Proof.
  intros Hr.
  pose proof (reachable_valid g Hr) as Hv.
  assert (Hc : Forall (fun p => 0 <= cpu_request p) (values (processes g))).
  { eapply Forall_impl; [exact Hv|]. intros p Hp. apply Hp. }
  assert (Hm : Forall (fun p => 0 <= mem_request p) (values (processes g))).
  { eapply Forall_impl; [exact Hv|]. intros p Hp. apply Hp. }
  unfold update_system_usage. cbn [fst snd].
  split; [|split].
  - pose proof (total_cpu_nonneg _ Hc) as H1.
    pose proof (total_mem_nonneg _ Hm) as H2.
    destruct (mem_percent_bounds _ H2) as [H3 _].
    repeat split; try apply Q.le_min_l; apply Q.min_glb; lra.
  - rewrite values_scheduler_loop. apply Q.min_r.
    apply tick_total_cpu. assumption.
  - rewrite values_scheduler_loop. apply Q.min_r.
    pose proof (tick_valid _ Hv) as Hv'.
    assert (Hm' : Forall (fun p => 0 <= mem_request p)
                         (fst (tick (values (processes g))))).
    { eapply Forall_impl; [exact Hv'|]. intros p Hp. apply Hp. }
    apply mem_percent_bounds; [apply total_mem_nonneg; assumption|].
    apply tick_total_mem. assumption.
Qed.

Lemma usage_bars_witness :
  (0 <= fst (update_system_usage
               (fst (run [Add "P1" 60 2048; Add "P2" 50 2048] init)))
   /\ fst (update_system_usage
             (fst (run [Add "P1" 60 2048; Add "P2" 50 2048] init))) <= 100
   /\ 0 <= snd (update_system_usage
                  (fst (run [Add "P1" 60 2048; Add "P2" 50 2048] init)))
   /\ snd (update_system_usage
             (fst (run [Add "P1" 60 2048; Add "P2" 50 2048] init))) <= 100)
  /\ fst (update_system_usage
            (fst (scheduler_loop
                    (fst (run [Add "P1" 60 2048; Add "P2" 50 2048] init)))))
     == total_cpu (values (processes (fst (scheduler_loop
                    (fst (run [Add "P1" 60 2048; Add "P2" 50 2048] init))))))
  /\ snd (update_system_usage
            (fst (scheduler_loop
                    (fst (run [Add "P1" 60 2048; Add "P2" 50 2048] init)))))
     == total_mem (values (processes (fst (scheduler_loop
                    (fst (run [Add "P1" 60 2048; Add "P2" 50 2048] init))))))
        / total_memory_mb * 100.
Proof.
  apply (usage_bars (fst (run [Add "P1" 60 2048; Add "P2" 50 2048] init))).
  apply reachable_witness. repeat constructor; simpl; lia.
Defined.

(** X18. The canvas of the progress bars is never lower than 160 nor higher
    than 600: its height is 160 up to 5 processes, 28 per process from 6 to
    21 processes, and 600 from 22 processes on; the floor of 30 in the
    source never decides it. *)
Theorem canvas_height (g : t) :
  (160 <= adjust_pb_canvas_height g <= 600)%Z
  /\ adjust_pb_canvas_height g
     = (let count := Z.of_nat (length (processes g)) in
        if count <=? 5 then 160
        else if count <=? 21 then count * 28
        else 600)%Z.
Proof.
  unfold adjust_pb_canvas_height. cbv zeta.
  set (count := Z.of_nat (length (processes g))).
  assert (0 <= count)%Z by (unfold count; lia).
  destruct (Z.leb_spec count 5); [lia|].
  destruct (Z.leb_spec count 21); lia.
Qed.

End TickProperties.
